(** * Kinematics and evolution tools of [tardigrade_constitutive_tools.cpp]

    A shallow embedding of the strain, stress and time-integration routines
    of [src/cpp/tardigrade_constitutive_tools.cpp], with the properties the
    specification states about them.

    Conventions of the embedding.
    - [floatType] is read as a real number: every statement below is about
      exact real arithmetic, which is the reading the specification gives
      ("exact in real arithmetic, within tolerance in floating point").
    - [floatVector] ([std::vector<floatType>]) is a list; [v !!! i] is
      [v[i]] and [<[i:=x]> v] is the assignment [v[i] = x].  Inside the
      range checked by each routine the two agree with the C++ accesses.
    - Vector lengths and loop indices are natural numbers; lengths are taken
      to fit the C++ [unsigned int], so index arithmetic does not wrap.  The
      one product of two lengths, the size of the Jacobian of
      [midpointEvolutionFlatJ], is computed modulo [2^32] as in the C++.
    - A routine with reference outputs takes their value on entry and
      returns the error together with their value on exit, whether it left
      through [return] or through a failed check. *)

From Stdlib Require Import Reals Lra Lia Psatz String DecimalString.
From stdpp Require Import base decidable list.

Open Scope R_scope.

(** ** Scalars, vectors and errors *)

Abbreviation floatType := R (only parsing).
Abbreviation floatVector := (list R) (only parsing).
Abbreviation floatMatrix := (list (list R)) (only parsing).

#[global] Instance floatType_inhabited : Inhabited floatType := populate 0.
#[global] Instance Rle_decision (x y : R) : Decision (x <= y) := Rle_dec x y.
#[global] Instance Rlt_decision (x y : R) : Decision (x < y) := Rlt_dec x y.

(** The classes of section 7 of the specification.  The C++ error object
    carries the name of the operation and a message; the class is the one
    the specification gives to the check that raised it. *)
Inductive errorKind := ShapeError | DomainError | ParameterError.

Record errorNode := mkErrorNode {
  kind : errorKind;
  functionName : string;
  message : string
}.

(** [errorOut] is a pointer to an [errorNode]; [NULL] is [None]. *)
Definition errorOut := option errorNode.

(** [for ( unsigned int i = 0; i < n; i++ ){ body }] over a state [s]. *)
Definition for_loop {S : Type} (n : nat) (body : nat -> S -> S) (s : S) : S :=
  fold_left (fun s i => body i s) (seq 0 n) s.

(** [v[i] += x] *)
Definition add_at (i : nat) (x : floatType) (v : floatVector) : floatVector :=
  <[i := v !!! i + x]> v.

(** Finite sum [f 0 + ... + f (n-1)], used in statements. *)
Fixpoint sumR (n : nat) (f : nat -> R) : R :=
  match n with
  | O => 0
  | S k => sumR k f + f k
  end.

(** ** deltaDirac *)

Definition deltaDirac (i j : nat) : floatType :=
  if (i =? j)%nat then 1 else 0.

(** [std::to_string] of an unsigned integer. *)
Definition to_string (n : nat) : string :=
  NilEmpty.string_of_uint (Nat.to_uint n).

(** A failed [TARDIGRADE_ERROR_TOOLS_CHECK( condition, message )] of the
    function [name] leaves the function with an error that carries the
    message.  The macro comes from the error-tools header, which is outside
    this repository; the class is the one of section 7. *)
Definition check_failed (k : errorKind) (name msg : string) : errorOut :=
  Some (mkErrorNode k name msg).

(** ** The collaborators: fixed-size Eigen maps and vector tools *)

Module Eigen.

(** Modelled from the spec: the dense 3x3 kernels of the TensorAlgebra
    collaborator (the Eigen library, not part of the sources), over a
    row-major [Eigen::Map] of nine values: determinant by expansion along
    the first row, inverse as the transposed cofactors over the
    determinant, and the matrix product. *)
Definition determinant (m : floatVector) : floatType :=
  m !!! 0%nat * (m !!! 4%nat * m !!! 8%nat - m !!! 5%nat * m !!! 7%nat)
  - m !!! 1%nat * (m !!! 3%nat * m !!! 8%nat - m !!! 5%nat * m !!! 6%nat)
  + m !!! 2%nat * (m !!! 3%nat * m !!! 7%nat - m !!! 4%nat * m !!! 6%nat).

Definition inverse (m : floatVector) : floatVector :=
  let d := determinant m in
  [ (m !!! 4%nat * m !!! 8%nat - m !!! 5%nat * m !!! 7%nat) / d;
    (m !!! 2%nat * m !!! 7%nat - m !!! 1%nat * m !!! 8%nat) / d;
    (m !!! 1%nat * m !!! 5%nat - m !!! 2%nat * m !!! 4%nat) / d;
    (m !!! 5%nat * m !!! 6%nat - m !!! 3%nat * m !!! 8%nat) / d;
    (m !!! 0%nat * m !!! 8%nat - m !!! 2%nat * m !!! 6%nat) / d;
    (m !!! 2%nat * m !!! 3%nat - m !!! 0%nat * m !!! 5%nat) / d;
    (m !!! 3%nat * m !!! 7%nat - m !!! 4%nat * m !!! 6%nat) / d;
    (m !!! 1%nat * m !!! 6%nat - m !!! 0%nat * m !!! 7%nat) / d;
    (m !!! 0%nat * m !!! 4%nat - m !!! 1%nat * m !!! 3%nat) / d ].

Definition product (a b : floatVector) : floatVector :=
  flat_map (fun i => map (fun j =>
    sumR 3 (fun k => a !!! (3 * i + k)%nat * b !!! (3 * k + j)%nat))
    (seq 0 3)) (seq 0 3).

End Eigen.

Module vectorTools.

(** Modelled from the spec: the flat row-major operations of the
    TensorAlgebra collaborator (tardigrade_vector_tools, not part of the
    sources): scalar broadcast and elementwise arithmetic, the identity,
    matrix multiply with transpose flags, determinant and inverse.  They are
    given on inputs of the stated shape, which is how this repository calls
    them. *)
Definition scale (a : floatType) (v : floatVector) : floatVector :=
  map (Rmult a) v.

Definition divide (v : floatVector) (a : floatType) : floatVector :=
  map (fun x => x / a) v.

Definition add (u v : floatVector) : floatVector := zip_with Rplus u v.

(** Entry [(i, j)] of [A], or of its transpose. *)
Definition entry (A : floatVector) (ncols : nat) (transpose : bool)
    (i j : nat) : floatType :=
  if transpose then A !!! (j * ncols + i)%nat else A !!! (i * ncols + j)%nat.

Definition matrixMultiply (A B : floatVector) (Arows Acols Brows Bcols : nat)
    (Atranspose Btranspose : bool) : floatVector :=
  let m := if Atranspose then Acols else Arows in
  let n := if Btranspose then Brows else Bcols in
  let k := if Atranspose then Arows else Acols in
  flat_map (fun i => map (fun j =>
    sumR k (fun l => entry A Acols Atranspose i l * entry B Bcols Btranspose l j))
    (seq 0 n)) (seq 0 m).

Definition inflate (A : floatVector) (nrows ncols : nat) : floatMatrix :=
  map (fun i => take ncols (drop (i * ncols) A)) (seq 0 nrows).

(** Determinant of an [n] x [n] matrix of rows, along the first row. *)
Fixpoint det (n : nat) (M : floatMatrix) : floatType :=
  match n, M with
  | O, _ => 1
  | S _, [] => 0
  | S n', row :: rest =>
      sumR n (fun j => (-1) ^ j * row !!! j * det n' (map (delete j) rest))
  end.

Definition determinant (A : floatVector) (nrows ncols : nat) : floatType :=
  det nrows (inflate A nrows ncols).

Definition cofactor (M : floatMatrix) (n i j : nat) : floatType :=
  (-1) ^ (i + j) * det (n - 1) (map (delete j) (delete i M)).

Definition inverse (A : floatVector) (nrows ncols : nat) : floatVector :=
  let M := inflate A nrows ncols in
  let d := det nrows M in
  flat_map (fun i => map (fun j => cofactor M nrows j i / d) (seq 0 ncols))
    (seq 0 nrows).

End vectorTools.

(** ** rotateMatrix *)

(** The summand of the innermost loop,
    [Q[I*dim + i] * A[I*dim + J] * Q[J*dim + j]]. *)
Definition rotateMatrix_term (dim : nat) (A Q : floatVector)
    (i j I J : nat) : floatType :=
  Q !!! (I * dim + i)%nat * A !!! (I * dim + J)%nat * Q !!! (J * dim + j)%nat.

Definition rotateMatrix_loops (dim : nat) (A Q rotatedA : floatVector)
  : floatVector :=
  for_loop dim (fun i =>
    for_loop dim (fun j =>
      for_loop dim (fun I =>
        for_loop dim (fun J =>
          add_at (i * dim + j) (rotateMatrix_term dim A Q i j I J)))))
    rotatedA.

(** [rotateMatrix(A, Q, rotatedA)].  The result is [None] where the C++ has
    no defined behaviour: for empty [A] and [Q] the dimension is 0 and
    [A.size() % dim] divides by zero. *)
Definition rotateMatrix (A Q rotatedA : floatVector)
  : option (errorOut * floatVector) :=
  if negb (length A =? length Q)%nat then
    Some (Some (mkErrorNode ShapeError "rotateMatrix"
                  "A and Q must have the same number of values"), rotatedA)
  else
    let dim := Nat.sqrt (length A) in
    if (dim =? 0)%nat then None
    else if negb (length A mod dim =? 0)%nat then
      Some (Some (mkErrorNode ShapeError "rotateMatrix" "A must be square"),
            rotatedA)
    else
      Some (None, rotateMatrix_loops dim A Q (resize (length A) 0 rotatedA)).

(** The documented result [A'_ij = Q_Ii A_IJ Q_Jj]. *)
Definition QtAQ (dim : nat) (A Q : floatVector) (i j : nat) : R :=
  sumR dim (fun I => sumR dim (fun J => rotateMatrix_term dim A Q i j I J)).

(** ** computeGreenLagrangeStrain *)

Definition computeGreenLagrangeStrain (deformationGradient E : floatVector)
  : errorOut * floatVector :=
  if negb (length deformationGradient =? 9)%nat then
    (Some (mkErrorNode ShapeError "computeGreenLagrangeStrain"
             "The deformation gradient must be 3D."), E)
  else
    let dim := 3%nat in
    let E := resize (dim * dim) 0 E in
    (None,
     for_loop dim (fun I =>
       for_loop dim (fun J E =>
         let E := <[(dim * I + J)%nat := - deltaDirac I J]> E in
         let E :=
           for_loop dim (fun i =>
             add_at (dim * I + J)
               (deformationGradient !!! (dim * i + I)%nat
                * deformationGradient !!! (dim * i + J)%nat)) E in
         <[(dim * I + J)%nat := E !!! (dim * I + J)%nat * 0.5]> E)) E).

(** ** decomposeGreenLagrangeStrain *)

(** [floatVector F_squared = 2 * E] followed by
    [F_squared[ dim * i + i ] += 1] for [i < dim]. *)
Definition decompose_F_squared (E : floatVector) : floatVector :=
  for_loop 3 (fun i => add_at (3 * i + i) 1) (vectorTools.scale 2 E).

(** [Ebar = E/(pow(J, 2./3))] followed by
    [Ebar[ dim * i + i ] += 0.5*(1/pow(J, 2./3) - 1)] for [i < dim]. *)
Definition decompose_Ebar (E : floatVector) (J : floatType) : floatVector :=
  for_loop 3 (fun i => add_at (3 * i + i) (0.5 * (1 / Rpower J (2 / 3) - 1)))
    (vectorTools.divide E (Rpower J (2 / 3))).

Definition decomposeGreenLagrangeStrain (E Ebar : floatVector) (J : floatType)
  : errorOut * (floatVector * floatType) :=
  let dim := 3%nat in
  let sot_dim := (dim * dim)%nat in
  if negb (length E =? sot_dim)%nat then
    (check_failed ShapeError "decomposeGreenLagrangeStrain"
       "the Green-Lagrange strain must be 3D", (Ebar, J))
  else
    let F_squared := decompose_F_squared E in
    let Jsq := Eigen.determinant F_squared in
    if negb (bool_decide (0 < Jsq)) then
      (check_failed DomainError "decomposeGreenLagrangeStrain"
         "the determinant of the Green-Lagrange strain is negative",
       (Ebar, J))
    else
      let J := sqrt Jsq in
      (None, (decompose_Ebar E J, J)).

(** ** mapPK2toCauchy and pushForwardPK2Stress *)

Definition mapPK2toCauchy (PK2Stress deformationGradient cauchyStress : floatVector)
  : errorOut * floatVector :=
  let dim := 3%nat in
  let sot_dim := (dim * dim)%nat in
  if negb (length PK2Stress =? sot_dim)%nat then
    (check_failed ShapeError "mapPK2toCauchy"
       "The cauchy stress must have nine components (3D)", cauchyStress)
  else if negb (length deformationGradient =? length PK2Stress)%nat then
    (check_failed ShapeError "mapPK2toCauchy"
       "The deformation gradient and the PK2 stress don't have the same size",
     cauchyStress)
  else
    let detF := Eigen.determinant deformationGradient in
    let temp_sot := replicate sot_dim 0 in
    let cauchyStress := replicate sot_dim 0 in
    let temp_sot :=
      for_loop dim (fun i =>
        for_loop dim (fun I =>
          for_loop dim (fun j =>
            add_at (dim * i + j)
              (deformationGradient !!! (3 * i + I)%nat
               * PK2Stress !!! (3 * I + j)%nat)))) temp_sot in
    let temp_sot := vectorTools.divide temp_sot detF in
    (None,
     for_loop dim (fun i =>
       for_loop dim (fun j =>
         for_loop dim (fun I =>
           add_at (dim * i + j)
             (temp_sot !!! (dim * i + I)%nat
              * deformationGradient !!! (3 * j + I)%nat)))) cauchyStress).

(** [( unsigned int )( std::sqrt( ( double )n ) + 0.5 )]: the square root
    rounded to the nearest integer. *)
Definition round_sqrt (n : nat) : nat :=
  let s := Nat.sqrt n in
  if (s <? n - s * s)%nat then S s else s.

(** The two errors of [pushForwardPK2Stress] are built with the
    one-argument form [new errorNode( text )]: the text is the first field
    and there is no second one. *)
Definition pushForwardPK2Stress (PK2 F cauchyStress : floatVector)
  : errorOut * floatVector :=
  let dim := round_sqrt (length PK2) in
  if negb (dim * dim =? length PK2)%nat then
    (Some (mkErrorNode ShapeError
             ("The PK2 stress must have a size of " ++ to_string (dim * dim)
              ++ " and has a size of " ++ to_string (length PK2)) ""),
     cauchyStress)
  else if negb (length PK2 =? length F)%nat then
    (Some (mkErrorNode ShapeError
             ("The deformation gradient must have a size of "
              ++ to_string (length PK2)
              ++ " and has a size of " ++ to_string (length F)) ""),
     cauchyStress)
  else
    let cauchyStress := replicate (dim * dim) 0 in
    let J := vectorTools.determinant F dim dim in
    let cauchyStress :=
      vectorTools.matrixMultiply F PK2 dim dim dim dim false false in
    let cauchyStress :=
      vectorTools.matrixMultiply cauchyStress F dim dim dim dim false true in
    (None, vectorTools.divide cauchyStress J).

(** ** midpointEvolution *)

Definition alpha_error : errorOut :=
  check_failed ParameterError "midpointEvolution"
    "Alpha must be between 0 and 1".

(** The loop over the iterator [ai] of [alpha], with its counter [i]. *)
Fixpoint midpointEvolution_loop (Dt : floatType)
    (Ap DApDt DADt : floatVector) (alpha : floatVector) (i : nat)
    (dA A : floatVector) : errorOut * (floatVector * floatVector) :=
  match alpha with
  | [] => (None, (dA, A))
  | ai :: rest =>
      if negb (bool_decide (0 <= ai) && bool_decide (ai <= 1)) then
        (alpha_error, (dA, A))
      else
        let dA := <[i := Dt * (ai * DApDt !!! i + (1 - ai) * DADt !!! i)]> dA in
        let A := <[i := Ap !!! i + dA !!! i]> A in
        midpointEvolution_loop Dt Ap DApDt DADt rest (S i) dA A
  end.

Definition midpointEvolution (Dt : floatType) (Ap DApDt DADt : floatVector)
    (dA A : floatVector) (alpha : floatVector)
  : errorOut * (floatVector * floatVector) :=
  if negb ((length Ap =? length DApDt)%nat && (length Ap =? length DADt)%nat)
  then
    (check_failed ShapeError "midpointEvolution"
       "The size of the previous value of the vector and the two rates are not equal",
     (dA, A))
  else if negb (length Ap =? length alpha)%nat then
    (check_failed ShapeError "midpointEvolution"
       "The size of the alpha vector is not the same size as the previous vector value",
     (dA, A))
  else
    let dA := replicate (length Ap) 0 in
    let A := replicate (length Ap) 0 in
    midpointEvolution_loop Dt Ap DApDt DADt alpha 0 dA A.

(** ** evolveF *)

Definition evolveF (Dt : floatType)
    (previousDeformationGradient Lp L : floatVector)
    (dF deformationGradient : floatVector)
    (alpha : floatType) (mode : nat)
  : errorOut * (floatVector * floatVector) :=
  let dim := 3%nat in
  let sot_dim := (dim * dim)%nat in
  if negb (length previousDeformationGradient =? sot_dim)%nat then
    (check_failed ShapeError "evolveF"
       "The deformation gradient doesn't have enough terms (require 9 for 3D)",
     (dF, deformationGradient))
  else if negb (length Lp =? length previousDeformationGradient)%nat then
    (check_failed ShapeError "evolveF"
       "The previous velocity gradient and deformation gradient aren't the same size",
     (dF, deformationGradient))
  else if negb (length previousDeformationGradient =? length L)%nat then
    (check_failed ShapeError "evolveF"
       "The previous deformation gradient and the current velocity gradient aren't the same size",
     (dF, deformationGradient))
  else if negb ((mode =? 1)%nat || (mode =? 2)%nat) then
    (check_failed ParameterError "evolveF"
       "The mode of evolution is not recognized",
     (dF, deformationGradient))
  else
    let LtpAlpha :=
      vectorTools.add (vectorTools.scale alpha Lp)
                      (vectorTools.scale (1 - alpha) L) in
    let RHS := replicate sot_dim 0 in
    let RHS :=
      if (mode =? 1)%nat
      then Eigen.product LtpAlpha previousDeformationGradient else RHS in
    let RHS :=
      if (mode =? 2)%nat
      then Eigen.product previousDeformationGradient LtpAlpha else RHS in
    let RHS := vectorTools.scale Dt RHS in
    let invLHS := vectorTools.scale (- Dt * (1 - alpha)) L in
    let invLHS := for_loop dim (fun i => add_at (dim * i + i) 1) invLHS in
    let dF := replicate sot_dim 0 in
    let invLHS := Eigen.inverse invLHS in
    let dF := if (mode =? 1)%nat then Eigen.product invLHS RHS else dF in
    let dF := if (mode =? 2)%nat then Eigen.product RHS invLHS else dF in
    (None, (dF, vectorTools.add previousDeformationGradient dF)).

(** ** pushForwardGreenLagrangeStrain and pullBackAlmansiStrain *)

Definition pushForwardGreenLagrangeStrain
    (greenLagrangeStrain deformationGradient almansiStrain : floatVector)
  : errorOut * floatVector :=
  let dim := 3%nat in
  let inverseDeformationGradient :=
    vectorTools.inverse deformationGradient dim dim in
  let almansiStrain :=
    vectorTools.matrixMultiply greenLagrangeStrain inverseDeformationGradient
      dim dim dim dim false false in
  let almansiStrain :=
    vectorTools.matrixMultiply inverseDeformationGradient almansiStrain
      dim dim dim dim true false in
  (None, almansiStrain).

Definition pullBackAlmansiStrain
    (almansiStrain deformationGradient greenLagrangeStrain : floatVector)
  : errorOut * floatVector :=
  let dim := 3%nat in
  let greenLagrangeStrain :=
    vectorTools.matrixMultiply deformationGradient almansiStrain
      dim dim dim dim true false in
  let greenLagrangeStrain :=
    vectorTools.matrixMultiply greenLagrangeStrain deformationGradient
      dim dim dim dim false false in
  (None, greenLagrangeStrain).

(** ** Further routines of the file *)

(** [std::copy( src.begin( ), src.end( ), dst.begin( ) )], for a source no
    longer than the destination. *)
Definition std_copy (src dst : floatVector) : floatVector :=
  src ++ drop (length src) dst.

(** Modelled from the spec: the inverse of a dynamically sized
    [Eigen::Map] (TensorAlgebra collaborator), as the collaborator's
    inverse.  The map of [computeDeformationGradient] is column-major, so it
    sees the transpose; inverting the transpose and storing it column-major
    is the row-major inverse. *)
Definition Eigen_dynamic_inverse (m : floatVector) (dim : nat) : floatVector :=
  vectorTools.inverse m dim dim.

(** Modelled from the spec: [m.transpose( )] of a 3x3 row-major map. *)
Definition Eigen_transpose (m : floatVector) : floatVector :=
  flat_map (fun i => map (fun j => m !!! (3 * j + i)%nat) (seq 0 3)) (seq 0 3).

(** [computeDeformationGradient( displacementGradient, F, isCurrent )]; the
    dimension is [( unsigned int )std::pow( size, 0.5 )]. *)
Definition computeDeformationGradient
    (displacementGradient F : floatVector) (isCurrent : bool)
  : errorOut * floatVector :=
  let dim := Nat.sqrt (length displacementGradient) in
  let sot_dim := (dim * dim)%nat in
  if negb (length displacementGradient =? sot_dim)%nat then
    (check_failed ShapeError "computeDeformationGradient"
       ("The displacement gradienthas "
        ++ to_string (length displacementGradient)
        ++ " values but the dimension has been determined to be "
        ++ to_string dim ++ "."), F)
  else
    let F := replicate sot_dim 0 in
    let F := std_copy displacementGradient F in
    if isCurrent then
      let F := map Ropp F in
      let F := for_loop dim (fun i => add_at (dim * i + i) 1) F in
      (None, Eigen_dynamic_inverse F dim)
    else
      (None, for_loop dim (fun i => add_at (dim * i + i) 1) F).

Definition computeRightCauchyGreen (deformationGradient C : floatVector)
  : errorOut * floatVector :=
  let dim := 3%nat in
  let sot_dim := (dim * dim)%nat in
  if negb (length deformationGradient =? sot_dim)%nat then
    (check_failed ShapeError "computeRightCauchyGreen"
       "The deformation gradient must be 3D", C)
  else
    let C := replicate sot_dim 0 in
    (None,
     Eigen.product (Eigen_transpose deformationGradient) deformationGradient).

(** The flat overload of [computeDGreenLagrangeStrainDF]; its error names
    [decomposeGreenLagrangeStrain], as in the source. *)
Definition computeDGreenLagrangeStrainDF (deformationGradient dEdF : floatVector)
  : errorOut * floatVector :=
  if negb (length deformationGradient =? 9)%nat then
    (Some (mkErrorNode ShapeError "decomposeGreenLagrangeStrain"
             "the Green-Lagrange strain must be 3D"), dEdF)
  else
    let dEdF := replicate 81 0 in
    (None,
     for_loop 3 (fun I =>
       for_loop 3 (fun J =>
         for_loop 3 (fun k =>
           for_loop 3 (fun K dEdF =>
             <[(3 * 9 * I + 9 * J + 3 * k + K)%nat :=
                 0.5 * (deltaDirac I K * deformationGradient !!! (3 * k + J)%nat
                        + deformationGradient !!! (3 * k + I)%nat
                          * deltaDirac J K)]> dEdF)))) dEdF).

Definition computeDFDt (velocityGradient deformationGradient DFDt : floatVector)
  : errorOut * floatVector :=
  let dim := 3%nat in
  let sot_dim := (dim * dim)%nat in
  if negb (length velocityGradient =? length deformationGradient)%nat then
    (check_failed ShapeError "computeDFDt"
       "The velocity gradient and deformation gradient must have the same size",
     DFDt)
  else if negb (length velocityGradient =? sot_dim)%nat then
    (check_failed ShapeError "computeDFDt"
       "The velocity gradient doesn't have enough entries", DFDt)
  else
    let DFDt := replicate (length velocityGradient) 0 in
    (None,
     for_loop dim (fun i =>
       for_loop dim (fun I =>
         for_loop dim (fun j =>
           add_at (dim * i + I)
             (velocityGradient !!! (dim * i + j)%nat
              * deformationGradient !!! (dim * j + I)%nat)))) DFDt).

(** The overload of [computeDFDt] with the flat Jacobians.
    [TARDIGRADE_ERROR_TOOLS_CATCH] re-raises a failure of the call it wraps
    with the outer function added to the trace; the embedding forwards the
    cause. *)
Definition computeDFDt_jacobians
    (velocityGradient deformationGradient DFDt dDFDtdL dDFDtdF : floatVector)
  : errorOut * (floatVector * floatVector * floatVector) :=
  let dim := 3%nat in
  let sot_dim := (dim * dim)%nat in
  match computeDFDt velocityGradient deformationGradient DFDt with
  | (Some e, DFDt) => (Some e, (DFDt, dDFDtdL, dDFDtdF))
  | (None, DFDt) =>
      let dDFDtdL := replicate (sot_dim * sot_dim) 0 in
      let dDFDtdF := replicate (sot_dim * sot_dim) 0 in
      let '(dDFDtdL, dDFDtdF) :=
        for_loop dim (fun i =>
          for_loop dim (fun I =>
            for_loop dim (fun k '(dDFDtdL, dDFDtdF) =>
              (<[(sot_dim * dim * i + sot_dim * I + dim * i + k)%nat :=
                   deformationGradient !!! (dim * k + I)%nat]> dDFDtdL,
               <[(sot_dim * dim * i + sot_dim * I + dim * k + I)%nat :=
                   velocityGradient !!! (dim * i + k)%nat]> dDFDtdF))))
          (dDFDtdL, dDFDtdF) in
      (None, (DFDt, dDFDtdL, dDFDtdF))
  end.

(** The scalar-[alpha] overload of [midpointEvolution]:
    [alpha * floatVector( Ap.size( ), 1 )]. *)
Definition midpointEvolution_scalar (Dt : floatType)
    (Ap DApDt DADt dA A : floatVector) (alpha : floatType)
  : errorOut * (floatVector * floatVector) :=
  midpointEvolution Dt Ap DApDt DADt dA A
    (vectorTools.scale alpha (replicate (length Ap) 1)).

(** [unsigned int] arithmetic: values modulo [2^32]. *)
Definition uint (z : Z) : Z := (z mod 2 ^ 32)%Z.

(** The loop [DADADt[ A_size * i + i ] = Dt * ( 1 - *ai )] over the
    iterator of [alpha].  [A_size] and [i] are [unsigned int], so the index
    is computed modulo [2^32]; a write past the end of the buffer has no
    defined behaviour and gives [None]. *)
Fixpoint midpointEvolutionFlatJ_loop (Dt : floatType) (A_size : Z)
    (alpha : floatVector) (i : Z) (DADADt : floatVector)
  : option floatVector :=
  match alpha with
  | [] => Some DADADt
  | ai :: rest =>
      let index := uint (uint (A_size * i) + i) in
      if (index <? Z.of_nat (length DADADt))%Z then
        midpointEvolutionFlatJ_loop Dt A_size rest (uint (i + 1))
          (<[Z.to_nat index := Dt * (1 - ai)]> DADADt)
      else None
  end.

(** [midpointEvolutionFlatJ] with one Jacobian.
    [const unsigned int A_size = A.size( )] and the buffer has
    [A_size * A_size] values, an [unsigned int] product.  The result is
    [None] where the loop writes out of bounds. *)
Definition midpointEvolutionFlatJ (Dt : floatType)
    (Ap DApDt DADt dA A DADADt alpha : floatVector)
  : option (errorOut * (floatVector * floatVector * floatVector)) :=
  match midpointEvolution Dt Ap DApDt DADt dA A alpha with
  | (Some e, (dA, A)) => Some (Some e, (dA, A, DADADt))
  | (None, (dA, A)) =>
      let A_size := uint (Z.of_nat (length A)) in
      let DADADt := replicate (Z.to_nat (uint (A_size * A_size))) 0 in
      match midpointEvolutionFlatJ_loop Dt A_size alpha 0 DADADt with
      | Some DADADt => Some (None, (dA, A, DADADt))
      | None => None
      end
  end.

(** The overload of [evolveF] without the increment: [floatVector dF;]. *)
Definition evolveF_value_only (Dt : floatType)
    (previousDeformationGradient Lp L deformationGradient : floatVector)
    (alpha : floatType) (mode : nat) : errorOut * floatVector :=
  let dF := [] in
  let '(e, (dF, deformationGradient)) :=
    evolveF Dt previousDeformationGradient Lp L dF deformationGradient
      alpha mode in
  (e, deformationGradient).

Definition mac (x : floatType) : floatType := 0.5 * (Rabs x + x).

(** [mac( x, dmacdx )]: the value and the output [dmacdx]. *)
Definition mac_jacobian (x dmacdx : floatType) : floatType * floatType :=
  let dmacdx := 0 in
  let dmacdx := if bool_decide (0 <= x) then 1 else dmacdx in
  (mac x, dmacdx).

Definition pullBackVelocityGradient
    (velocityGradient deformationGradient pullBackVelocityGradient : floatVector)
  : errorOut * floatVector :=
  let dim := 3%nat in
  let inverseDeformationGradient :=
    vectorTools.inverse deformationGradient dim dim in
  let pullBackVelocityGradient :=
    vectorTools.matrixMultiply inverseDeformationGradient velocityGradient
      dim dim dim dim false false in
  let pullBackVelocityGradient :=
    vectorTools.matrixMultiply pullBackVelocityGradient deformationGradient
      dim dim dim dim false false in
  (None, pullBackVelocityGradient).

(** Modelled from the spec: the scalar broadcast [v * a] of the
    TensorAlgebra collaborator. *)
Definition scale_r (v : floatVector) (a : floatType) : floatVector :=
  map (fun x => x * a) v.

Definition quadraticThermalExpansion
    (temperature referenceTemperature : floatType)
    (linearParameters quadraticParameters thermalExpansion : floatVector)
  : errorOut * floatVector :=
  if negb (length linearParameters =? length quadraticParameters)%nat then
    (Some (mkErrorNode ShapeError "quadraticThermalExpansion"
             "The linear and quadratic parameters must have the same length"),
     thermalExpansion)
  else
    (None,
     zip_with Rminus
       (zip_with Rminus
          (vectorTools.add
             (scale_r linearParameters temperature)
             (scale_r (scale_r quadraticParameters temperature) temperature))
          (scale_r linearParameters referenceTemperature))
       (scale_r (scale_r quadraticParameters referenceTemperature)
          referenceTemperature)).

(** The overload with the derivative with respect to the temperature.  A
    failure is a new node with [result->addNext( error )]: the list is the
    chain, the cause last. *)
Definition quadraticThermalExpansion_jacobian
    (temperature referenceTemperature : floatType)
    (linearParameters quadraticParameters : floatVector)
    (thermalExpansion thermalExpansionJacobian : floatVector)
  : option (list errorNode) * (floatVector * floatVector) :=
  match quadraticThermalExpansion temperature referenceTemperature
          linearParameters quadraticParameters thermalExpansion with
  | (Some error, thermalExpansion) =>
      (Some [mkErrorNode (kind error) "quadraticThermalExpansion (jacobian)"
               "Error in computation of thermal expansion"; error],
       (thermalExpansion, thermalExpansionJacobian))
  | (None, thermalExpansion) =>
      (None,
       (thermalExpansion,
        vectorTools.add linearParameters
          (scale_r (vectorTools.scale 2 quadraticParameters) temperature)))
  end.

(** The line feed of the messages of [pullBackCauchyStress]. *)
Definition newline : string := String (Ascii.ascii_of_nat 10) EmptyString.

Definition pullBackCauchyStress (cauchyStress F PK2 : floatVector)
  : errorOut * floatVector :=
  let dim := round_sqrt (length cauchyStress) in
  if negb (length cauchyStress =? dim * dim)%nat then
    (Some (mkErrorNode ShapeError "pullBackCauchyStress"
             ("The Cauchy stress size is not consistent with the computed dimension"
              ++ newline
              ++ "    cauchyStress.size( ): "
              ++ to_string (length cauchyStress) ++ newline
              ++ "    dim * dim           : "
              ++ to_string (dim * dim) ++ newline)), PK2)
  else if negb (length cauchyStress =? length F)%nat then
    (Some (mkErrorNode ShapeError "pullBackCauchyStress"
             ("The Cauchy stress and the deformation gradient have inconsistent sizes"
              ++ newline
              ++ "    cauchyStress.size( ): "
              ++ to_string (length cauchyStress) ++ newline
              ++ "    F.size( )           : "
              ++ to_string (length F) ++ newline)), PK2)
  else
    let J := vectorTools.determinant F dim dim in
    let Finv := vectorTools.inverse F dim dim in
    (None,
     vectorTools.scale J
       (vectorTools.matrixMultiply
          (vectorTools.matrixMultiply Finv cauchyStress dim dim dim dim
             false false)
          Finv dim dim dim dim false true)).

(** [computeSymmetricPart( A, symmA, dim )]: [dim] is an output, assigned
    before the check. *)
Definition computeSymmetricPart (A symmA : floatVector) (dim : nat)
  : errorOut * (floatVector * nat) :=
  let dim := round_sqrt (length A) in
  if negb (dim * dim =? length A)%nat then
    (Some (mkErrorNode ShapeError "computeSymmetricPart"
             "A is not a square matrix"), (symmA, dim))
  else
    let symmA := replicate (length A) 0 in
    (None,
     (for_loop dim (fun i =>
        for_loop dim (fun j symmA =>
          <[(dim * i + j)%nat :=
              0.5 * (A !!! (dim * i + j)%nat + A !!! (dim * j + i)%nat)]> symmA))
        symmA,
      dim)).

Section FuzzyEquals.

(** [tardigradeVectorTools::fuzzyEquals] with its default tolerances, a
    function of the collaborator that the sources do not contain: a
    parameter of the two routines that call it. *)
Variable fuzzyEquals : floatType -> floatType -> bool.

Definition WLF (temperature : floatType) (WLFParameters : floatVector)
    (factor : floatType) : errorOut * floatType :=
  if negb (length WLFParameters =? 3)%nat then
    (check_failed ShapeError "WLF"
       "The parameters have the wrong number of terms", factor)
  else
    let Tr := WLFParameters !!! 0%nat in
    let C1 := WLFParameters !!! 1%nat in
    let C2 := WLFParameters !!! 2%nat in
    if negb (negb (fuzzyEquals (C2 + (temperature - Tr)) 0)) then
      (check_failed DomainError "WLF" "Zero in the denominator", factor)
    else
      (None,
       Rpower 10 (- C1 * (temperature - Tr) / (C2 + (temperature - Tr)))).

(** Modelled from the spec: the inner product of the TensorAlgebra
    collaborator ([tardigradeVectorTools::inner]), the sum of the
    products. *)
Definition inner (u v : floatVector) : floatType :=
  fold_left Rplus (zip_with Rmult u v) 0.

Definition computeUnitNormal (A Anorm : floatVector) : errorOut * floatVector :=
  let norm := sqrt (inner A A) in
  if fuzzyEquals norm 0 then (None, replicate (length A) 0)
  else (None, vectorTools.divide A norm).

End FuzzyEquals.

(** ** Notions used in the statements *)

(** The 3x3 identity, row-major. *)
Definition eye3 : floatVector := [1; 0; 0; 0; 1; 0; 0; 0; 1].

(** Elementwise difference. *)
Definition vsub (u v : floatVector) : floatVector := zip_with Rminus u v.

(** An integration parameter inside [[0, 1]]. *)
Definition alpha_in_range (a : floatType) : Prop := 0 <= a /\ a <= 1.

(** The increment [midpointEvolution] writes at index [k] for the
    parameter [a]. *)
Definition midpoint_dA (Dt : floatType) (DApDt DADt : floatVector)
    (a : floatType) (k : nat) : floatType :=
  Dt * (a * DApDt !!! k + (1 - a) * DADt !!! k).

(** [2E + I], the matrix whose determinant the routine tests. *)
Definition twoE_plus_I (E : floatVector) : floatVector :=
  vectorTools.add (vectorTools.scale 2 E) eye3.

(** [I - Dt (1 - alpha) L], the matrix the routine inverts. *)
Definition evolveF_LHS (Dt alpha : R) (L : floatVector) : floatVector :=
  vsub eye3 (vectorTools.scale (Dt * (1 - alpha)) L).

(** [L* = alpha Lp + (1 - alpha) L] *)
Definition evolveF_Lstar (alpha : R) (Lp L : floatVector) : floatVector :=
  vectorTools.add (vectorTools.scale alpha Lp) (vectorTools.scale (1 - alpha) L).

(** A transformation of vectors of length [n] that adds [delta k] to
    entry [k]. *)
Definition adds (n : nat) (T : list R -> list R) (delta : nat -> R) : Prop :=
  forall v, length v = n ->
    length (T v) = n /\ forall k, T v !!! k = v !!! k + delta k.

(** The trace of a 3x3 tensor. *)
Definition trace3 (m : floatVector) : floatType :=
  m !!! 0%nat + m !!! 4%nat + m !!! 8%nat.

(** A concrete comparison with tolerances, used to instantiate the
    parameter [fuzzyEquals] in examples:
    [|a - b| < min(tolr |a| + tola, tolr |b| + tola)]. *)
Definition fuzzyEquals_tol (tolr tola : floatType) (a b : floatType) : bool :=
  bool_decide (Rabs (a - b)
               < Rmin (tolr * Rabs a + tola) (tolr * Rabs b + tola)).

(** ** Proof tools *)

(** Runs the loops and the list operations of the embedding on lists whose
    spine is known, leaving the real arithmetic untouched. *)
Ltac run :=
  cbv [for_loop add_at fold_left seq lookup_total list_lookup_total
       insert list_insert delete list_delete
       resize replicate take drop zip_with map flat_map app length
       Nat.mul Nat.add Nat.eqb Nat.sub negb deltaDirac sumR pow
       Eigen.determinant Eigen.inverse Eigen.product
       vectorTools.scale vectorTools.divide vectorTools.add
       vectorTools.entry vectorTools.matrixMultiply vectorTools.inflate
       vectorTools.det vectorTools.determinant vectorTools.cofactor
       vectorTools.inverse
       decompose_F_squared decompose_Ebar eye3 vsub twoE_plus_I
       evolveF_LHS evolveF_Lstar].

(** Turns a list of known length into its elements. *)
Ltac explode l H :=
  repeat (destruct l as [|? l]; [simpl in H; discriminate H|]);
  destruct l as [|? l]; [clear H|simpl in H; discriminate H].

(** Equality of two lists of the same spine, entry by entry. *)
Ltac by_entries :=
  repeat match goal with |- _ :: _ = _ :: _ => f_equal end.

Lemma half_eq : 0.5 = / 2.
Proof. lra. Qed.

(** ** computeGreenLagrangeStrain *)

(** C7: for a deformation gradient of nine values the routine succeeds and
    returns [E] with [E_IJ = 1/2 (sum_i F_iI F_iJ - delta_IJ)], whatever the
    output held on entry; for the identity [E] is the zero tensor. *)
Theorem computeGreenLagrangeStrain_formula (F E0 : floatVector) :
  length F = 9%nat ->
  exists E,
    computeGreenLagrangeStrain F E0 = (None, E) /\
    length E = 9%nat /\
    (forall I J, (I < 3)%nat -> (J < 3)%nat ->
       E !!! (3 * I + J)%nat
       = 1 / 2 * (sumR 3 (fun i => F !!! (3 * i + I)%nat * F !!! (3 * i + J)%nat)
                  - deltaDirac I J)) /\
    (F = eye3 -> E = replicate 9 0).
Proof.
  intros HF.
  unfold computeGreenLagrangeStrain. rewrite HF. cbn [Nat.eqb negb].
  change (3 * 3)%nat with 9%nat.
  remember (resize 9 0 E0) as E1 eqn:HE1.
  assert (HE : length E1 = 9%nat) by (rewrite HE1; apply length_resize).
  clear HE1. explode F HF. explode E1 HE.
  eexists. split; [reflexivity|]. split; [reflexivity|]. split.
  - intros I J HI HJ.
    destruct I as [|[|[|I]]]; [| | |lia];
      (destruct J as [|[|[|J]]]; [| | |lia]); run; rewrite half_eq; field.
  - intros Heq. injection Heq as -> -> -> -> -> -> -> -> ->.
    run. by_entries; lra.
Qed.

Lemma computeGreenLagrangeStrain_identity :
  length eye3 = 9%nat /\
  exists E, computeGreenLagrangeStrain eye3 [] = (None, E) /\ E = replicate 9 0.
Proof.
  split; [reflexivity|].
  destruct (computeGreenLagrangeStrain_formula eye3 [] eq_refl)
    as (E & HE & _ & _ & Hz).
  exists E. split; [exact HE | exact (Hz eq_refl)].
Defined.

(** ** midpointEvolution *)

Section Midpoint.
Variable Dt : floatType.
Variables Ap DApDt DADt : floatVector.

Lemma alpha_check_true a :
  alpha_in_range a -> negb (bool_decide (0 <= a) && bool_decide (a <= 1)) = false.
Proof.
  intros [H0 H1]. rewrite !bool_decide_true by assumption. reflexivity.
Qed.

Lemma alpha_check_false a :
  ~ alpha_in_range a -> negb (bool_decide (0 <= a) && bool_decide (a <= 1)) = true.
Proof.
  intros H. destruct (decide (0 <= a)) as [H0|H0]; destruct (decide (a <= 1)) as [H1|H1].
  - exfalso. apply H. split; assumption.
  - rewrite (bool_decide_false _ H1). rewrite andb_false_r. reflexivity.
  - rewrite (bool_decide_false _ H0). reflexivity.
  - rewrite (bool_decide_false _ H0). reflexivity.
Qed.

(** The loop over a prefix of parameters that are all in range: it reaches
    the rest of the parameters with the prefix's components written. *)
Lemma midpointEvolution_loop_prefix (good rest : floatVector) :
  Forall alpha_in_range good ->
  forall (i : nat) (dA A : floatVector),
    length A = length dA -> (i + length good <= length dA)%nat ->
    exists dA' A',
      midpointEvolution_loop Dt Ap DApDt DADt (good ++ rest) i dA A
      = midpointEvolution_loop Dt Ap DApDt DADt rest (i + length good) dA' A'
      /\ length dA' = length dA /\ length A' = length dA
      /\ (forall k, dA' !!! k =
            if decide (i <= k < i + length good)%nat
            then midpoint_dA Dt DApDt DADt (good !!! (k - i)%nat) k else dA !!! k)
      /\ (forall k, A' !!! k =
            if decide (i <= k < i + length good)%nat
            then Ap !!! k + midpoint_dA Dt DApDt DADt (good !!! (k - i)%nat) k else A !!! k).
Proof.
  induction 1 as [|a good Ha Hgood IH]; intros i dA A HA Hi.
  - exists dA, A. cbn [app length]. rewrite Nat.add_0_r.
    repeat split; try assumption; intros k; destruct (decide _); try lia; reflexivity.
  - cbn [app length] in *. cbn [midpointEvolution_loop].
    rewrite (alpha_check_true a Ha).
    set (dA1 := <[i := _]> dA). set (A1 := <[i := _]> A).
    destruct (IH (S i) dA1 A1) as (dA' & A' & Heq & Hl1 & Hl2 & HdA & HAk).
    { unfold dA1, A1. rewrite !length_insert. assumption. }
    { unfold dA1. rewrite length_insert. lia. }
    exists dA', A'. rewrite Heq. split.
    { f_equal. lia. }
    unfold dA1 in Hl1, Hl2. rewrite length_insert in Hl1, Hl2.
    split; [assumption|]. split; [assumption|].
    assert (Hd1 : dA1 !!! i = midpoint_dA Dt DApDt DADt a i).
    { unfold dA1. rewrite list_lookup_total_insert_eq by lia. reflexivity. }
    split; intros k.
    + rewrite HdA. destruct (decide (S i <= k < S i + length good)%nat).
      * rewrite decide_True by lia.
        replace (k - i)%nat with (S (k - S i)) by lia. reflexivity.
      * destruct (decide (i <= k < i + S (length good))%nat).
        -- assert (k = i) by lia. subst k. rewrite Nat.sub_diag. exact Hd1.
        -- unfold dA1. rewrite list_lookup_total_insert_ne by lia. reflexivity.
    + rewrite HAk. destruct (decide (S i <= k < S i + length good)%nat).
      * rewrite decide_True by lia.
        replace (k - i)%nat with (S (k - S i)) by lia. reflexivity.
      * destruct (decide (i <= k < i + S (length good))%nat).
        -- assert (k = i) by lia. subst k. rewrite Nat.sub_diag.
           unfold A1. rewrite list_lookup_total_insert_eq by lia.
           rewrite Hd1. reflexivity.
        -- unfold A1. rewrite list_lookup_total_insert_ne by lia. reflexivity.
Qed.


Lemma lookup_total_replicate_0 (n k : nat) : replicate n 0 !!! k = 0.
Proof.
  destruct (decide (k < n)%nat).
  - apply lookup_total_replicate_2; assumption.
  - rewrite list_lookup_total_alt, lookup_ge_None_2; [reflexivity|].
    rewrite length_replicate. lia.
Qed.

(** With all parameters in range the call succeeds and every component is
    the midpoint update. *)
Lemma midpointEvolution_ok (dA0 A0 alpha : floatVector) :
  length DApDt = length Ap -> length DADt = length Ap ->
  length alpha = length Ap -> Forall alpha_in_range alpha ->
  exists dA A,
    midpointEvolution Dt Ap DApDt DADt dA0 A0 alpha = (None, (dA, A))
    /\ length dA = length Ap /\ length A = length Ap
    /\ (forall i, (i < length Ap)%nat ->
          dA !!! i = midpoint_dA Dt DApDt DADt (alpha !!! i) i
          /\ A !!! i = Ap !!! i + dA !!! i).
Proof.
  intros H1 H2 H3 Hall. unfold midpointEvolution.
  rewrite H1, H2, H3, !Nat.eqb_refl. cbn [andb negb].
  destruct (midpointEvolution_loop_prefix alpha [] Hall 0
              (replicate (length Ap) 0) (replicate (length Ap) 0))
    as (dA & A & Heq & Hl1 & Hl2 & HdA & HA).
  { reflexivity. }
  { rewrite length_replicate. lia. }
  rewrite app_nil_r in Heq. exists dA, A. rewrite Heq.
  rewrite length_replicate in Hl1, Hl2.
  split; [reflexivity|]. split; [assumption|]. split; [assumption|].
  intros i Hi. rewrite HA, HdA. rewrite !decide_True by lia.
  rewrite Nat.sub_0_r. split; reflexivity.
Qed.

(** With the first parameter out of range at index [length good] the call
    fails after the components before that index were written. *)
Lemma midpointEvolution_partial (dA0 A0 good rest : floatVector) (bad : R) :
  length DApDt = length Ap -> length DADt = length Ap ->
  length (good ++ bad :: rest) = length Ap ->
  Forall alpha_in_range good -> ~ alpha_in_range bad ->
  exists dA A,
    midpointEvolution Dt Ap DApDt DADt dA0 A0 (good ++ bad :: rest)
    = (alpha_error, (dA, A))
    /\ length dA = length Ap /\ length A = length Ap
    /\ (forall i,
          dA !!! i = (if decide (i < length good)%nat
                      then midpoint_dA Dt DApDt DADt (good !!! i) i else 0)
          /\ A !!! i = (if decide (i < length good)%nat
                        then Ap !!! i + midpoint_dA Dt DApDt DADt (good !!! i) i else 0)).
Proof.
  intros H1 H2 H3 Hall Hbad. unfold midpointEvolution.
  rewrite H1, H2, H3, !Nat.eqb_refl. cbn [andb negb].
  rewrite length_app in H3. cbn [length] in H3.
  destruct (midpointEvolution_loop_prefix good (bad :: rest) Hall 0
              (replicate (length Ap) 0) (replicate (length Ap) 0))
    as (dA & A & Heq & Hl1 & Hl2 & HdA & HA).
  { reflexivity. }
  { rewrite length_replicate. lia. }
  exists dA, A. rewrite Heq. cbn [midpointEvolution_loop].
  rewrite (alpha_check_false bad Hbad).
  rewrite length_replicate in Hl1, Hl2.
  split; [reflexivity|]. split; [assumption|]. split; [assumption|].
  intros i. rewrite HA, HdA. rewrite Nat.sub_0_r.
  destruct (decide (i < length good)%nat).
  - rewrite !decide_True by lia. split; reflexivity.
  - rewrite !decide_False by lia. rewrite lookup_total_replicate_0.
    split; reflexivity.
Qed.

End Midpoint.

(** C2: with equal lengths and every parameter in [[0, 1]] the call succeeds
    with [dA_i = Dt (alpha_i DApDt_i + (1 - alpha_i) DADt_i)] and
    [A_i = Ap_i + dA_i]; a parameter vector of zeros gives
    [A = Ap + Dt DADt], of ones [A = Ap + Dt DApDt], of halves the
    trapezoidal average, and the scenario of the specification gives
    [A = [20.5; 23; 25.5; 28]]. *)
Theorem midpointEvolution_formula
    (Dt : R) (Ap DApDt DADt alpha dA0 A0 : floatVector) :
  length DApDt = length Ap -> length DADt = length Ap ->
  length alpha = length Ap -> Forall alpha_in_range alpha ->
  exists dA A,
    midpointEvolution Dt Ap DApDt DADt dA0 A0 alpha = (None, (dA, A))
    /\ length dA = length Ap /\ length A = length Ap
    /\ (forall i, (i < length Ap)%nat ->
          dA !!! i = Dt * (alpha !!! i * DApDt !!! i + (1 - alpha !!! i) * DADt !!! i)
          /\ A !!! i = Ap !!! i + dA !!! i)
    /\ (alpha = replicate (length Ap) 0 ->
        forall i, (i < length Ap)%nat -> A !!! i = Ap !!! i + Dt * DADt !!! i)
    /\ (alpha = replicate (length Ap) 1 ->
        forall i, (i < length Ap)%nat -> A !!! i = Ap !!! i + Dt * DApDt !!! i)
    /\ (alpha = replicate (length Ap) 0.5 ->
        forall i, (i < length Ap)%nat ->
          A !!! i = Ap !!! i + Dt * 0.5 * (DApDt !!! i + DADt !!! i))
    /\ (Dt = 2.5 -> Ap = [9; 10; 11; 12] -> DApDt = [1; 2; 3; 4] ->
        DADt = [5; 6; 7; 8] -> alpha = [0.1; 0.2; 0.3; 0.4] ->
        A = [20.5; 23; 25.5; 28]).
Proof.
  intros H1 H2 H3 Hall.
  destruct (midpointEvolution_ok Dt Ap DApDt DADt dA0 A0 alpha H1 H2 H3 Hall)
    as (dA & A & Heq & Hl1 & Hl2 & Hi).
  exists dA, A. unfold midpoint_dA in Hi.
  split; [assumption|]. split; [assumption|]. split; [assumption|].
  split; [assumption|].
  assert (Hconst : forall c, alpha = replicate (length Ap) c ->
            forall i, (i < length Ap)%nat ->
              A !!! i = Ap !!! i + Dt * (c * DApDt !!! i + (1 - c) * DADt !!! i)).
  { intros c Hc i Hlt. destruct (Hi i Hlt) as [Hd Ha]. rewrite Ha, Hd, Hc.
    rewrite lookup_total_replicate_2 by assumption. reflexivity. }
  split; [|split; [|split]].
  - intros Hc i Hlt. rewrite (Hconst 0 Hc i Hlt). ring.
  - intros Hc i Hlt. rewrite (Hconst 1 Hc i Hlt). ring.
  - intros Hc i Hlt. rewrite (Hconst 0.5 Hc i Hlt). rewrite half_eq. field.
  - intros -> -> -> -> ->. cbn [length] in *.
    explode A Hl2.
    pose proof (Hi 0%nat ltac:(lia)) as [Hd0 Ha0].
    pose proof (Hi 1%nat ltac:(lia)) as [Hd1 Ha1].
    pose proof (Hi 2%nat ltac:(lia)) as [Hd2 Ha2].
    pose proof (Hi 3%nat ltac:(lia)) as [Hd3 Ha3].
    rewrite Hd0 in Ha0. rewrite Hd1 in Ha1. rewrite Hd2 in Ha2. rewrite Hd3 in Ha3.
    cbn in Ha0, Ha1, Ha2, Ha3.
    by_entries; lra.
Qed.

Lemma midpointEvolution_scenario :
  exists dA,
    midpointEvolution 2.5 [9; 10; 11; 12] [1; 2; 3; 4] [5; 6; 7; 8] [] []
      [0.1; 0.2; 0.3; 0.4]
    = (None, (dA, [20.5; 23; 25.5; 28])).
Proof.
  destruct (midpointEvolution_formula 2.5 [9; 10; 11; 12] [1; 2; 3; 4]
              [5; 6; 7; 8] [0.1; 0.2; 0.3; 0.4] [] []
              eq_refl eq_refl eq_refl)
    as (dA & A & Heq & _ & _ & _ & _ & _ & _ & Hsc).
  - repeat constructor; lra.
  - exists dA. rewrite Heq.
    rewrite (Hsc eq_refl eq_refl eq_refl eq_refl eq_refl). reflexivity.
Defined.

(** C3, as stated, fails: with [alpha = [0.5; 2]] the call reports the
    parameter error after it has sized both outputs and written component 0
    ([dA_0 = 1], [A_0 = 2]), so the outputs are not the ones of the entry. *)
Lemma midpointEvolution_partial_outputs :
  exists dA A,
    midpointEvolution 1 [1; 1] [1; 1] [1; 1] [] [] [0.5; 2]
    = (alpha_error, (dA, A))
    /\ dA !!! 0%nat = 1 /\ A !!! 0%nat = 2 /\ (dA, A) <> ([], []).
Proof.
  destruct (midpointEvolution_partial 1 [1; 1] [1; 1] [1; 1] [] [] [0.5] [] 2
              eq_refl eq_refl eq_refl)
    as (dA & A & Heq & Hl & _ & Hi).
  - repeat constructor; lra.
  - unfold alpha_in_range. lra.
  - exists dA, A. split; [exact Heq|].
    destruct (Hi 0%nat) as [Hd Ha].
    rewrite decide_True in Hd, Ha by (cbn [length]; lia).
    unfold midpoint_dA in Hd, Ha.
    cbn [lookup_total list_lookup_total] in Hd, Ha.
    split; [rewrite Hd; lra|]. split; [rewrite Ha; lra|].
    intros Hc. injection Hc as -> ->. discriminate Hl.
Qed.

(** C3, amended: the length checks come before any output is touched, so a
    length mismatch returns the outputs as they were on entry; the range of
    each parameter is checked inside the component loop, so when the first
    parameter outside [[0, 1]] is at index [length good] the call returns a
    ParameterError with both outputs of the length of [Ap], the components
    before that index computed and the others zero. *)
Theorem midpointEvolution_checks
    (Dt : R) (Ap DApDt DADt alpha dA0 A0 : floatVector) :
  ((length Ap <> length DApDt \/ length Ap <> length DADt
    \/ length Ap <> length alpha) ->
   exists e, midpointEvolution Dt Ap DApDt DADt dA0 A0 alpha = (Some e, (dA0, A0)))
  /\ (length DApDt = length Ap -> length DADt = length Ap ->
      length alpha = length Ap ->
      forall good bad rest,
        alpha = good ++ bad :: rest ->
        Forall alpha_in_range good -> ~ alpha_in_range bad ->
        exists e dA A,
          midpointEvolution Dt Ap DApDt DADt dA0 A0 alpha = (Some e, (dA, A))
          /\ kind e = ParameterError
          /\ length dA = length Ap /\ length A = length Ap
          /\ (forall i, (i < length good)%nat ->
                dA !!! i = Dt * (good !!! i * DApDt !!! i
                                 + (1 - good !!! i) * DADt !!! i)
                /\ A !!! i = Ap !!! i + dA !!! i)
          /\ (forall i, (length good <= i)%nat -> dA !!! i = 0 /\ A !!! i = 0)).
Proof.
  split.
  - intros H. unfold midpointEvolution.
    destruct (Nat.eqb_spec (length Ap) (length DApDt)) as [E1|N1];
      [|cbn [andb negb]; eexists; reflexivity].
    destruct (Nat.eqb_spec (length Ap) (length DADt)) as [E2|N2];
      [|cbn [andb negb]; eexists; reflexivity].
    cbn [andb negb].
    destruct (Nat.eqb_spec (length Ap) (length alpha)) as [E3|N3];
      [|cbn [negb]; eexists; reflexivity].
    exfalso. destruct H as [H|[H|H]]; contradiction.
  - intros H1 H2 H3 good bad rest -> Hall Hbad.
    destruct (midpointEvolution_partial Dt Ap DApDt DADt dA0 A0 good rest bad
                H1 H2 H3 Hall Hbad)
      as (dA & A & Heq & Hl1 & Hl2 & Hi).
    eexists _, dA, A. split; [exact Heq|]. split; [reflexivity|].
    split; [assumption|]. split; [assumption|]. split.
    + intros i Hlt. destruct (Hi i) as [Hd Ha].
      rewrite decide_True in Hd, Ha by assumption.
      unfold midpoint_dA in *. rewrite Ha, Hd. split; reflexivity.
    + intros i Hge. destruct (Hi i) as [Hd Ha].
      rewrite decide_False in Hd, Ha by lia. split; assumption.
Qed.

Lemma midpointEvolution_checks_at_bad_alpha :
  exists e dA A,
    midpointEvolution 1 [1; 1] [1; 1] [1; 1] [] [] [0.5; 2] = (Some e, (dA, A))
    /\ kind e = ParameterError /\ dA !!! 1%nat = 0 /\ A !!! 1%nat = 0.
Proof.
  destruct (midpointEvolution_checks 1 [1; 1] [1; 1] [1; 1] [0.5; 2] [] [])
    as [_ H].
  destruct (H eq_refl eq_refl eq_refl [0.5] 2 [] eq_refl)
    as (e & dA & A & Heq & Hk & _ & _ & _ & Hz).
  - repeat constructor; lra.
  - unfold alpha_in_range. lra.
  - exists e, dA, A. destruct (Hz 1%nat (Nat.le_refl 1)) as [Hd Ha].
    repeat split; assumption.
Defined.

(** ** decomposeGreenLagrangeStrain *)

Lemma decompose_F_squared_eq (E : floatVector) :
  length E = 9%nat -> decompose_F_squared E = twoE_plus_I E.
Proof.
  intros HE. explode E HE. unfold twoE_plus_I. run. by_entries; ring.
Qed.

Lemma decompose_Ebar_length (E : floatVector) (J : R) :
  length E = 9%nat -> length (decompose_Ebar E J) = 9%nat.
Proof. intros HE. explode E HE. reflexivity. Qed.

Lemma decompose_Ebar_entry (E : floatVector) (J : R) (I K : nat) :
  length E = 9%nat -> 0 < J -> (I < 3)%nat -> (K < 3)%nat ->
  decompose_Ebar E J !!! (3 * I + K)%nat
  = E !!! (3 * I + K)%nat / Rpower J (2 / 3)
    + 1 / 2 * (Rpower J (- (2 / 3)) - 1) * deltaDirac I K.
Proof.
  intros HE HJ HI HK. rewrite Rpower_Ropp.
  assert (Hp : Rpower J (2 / 3) <> 0).
  { unfold Rpower. pose proof (exp_pos (2 / 3 * ln J)). lra. }
  explode E HE.
  destruct I as [|[|[|I]]]; [| | |lia];
    (destruct K as [|[|[|K]]]; [| | |lia]); run; rewrite ?half_eq; field; exact Hp.
Qed.

(** The isochoric part has unit determinant: [det(2 Ebar + I) = Jsq / p^3]
    for [p = J^(2/3)]. *)
Lemma decompose_Ebar_det (E : floatVector) (p : R) :
  length E = 9%nat -> p <> 0 ->
  Eigen.determinant
    (decompose_F_squared
       (for_loop 3 (fun i => add_at (3 * i + i) (0.5 * (1 / p - 1)))
          (vectorTools.divide E p)))
  = Eigen.determinant (decompose_F_squared E) / (p * p * p).
Proof.
  intros HE Hp. explode E HE. run. rewrite half_eq. field. exact Hp.
Qed.

Lemma Rpower_two_thirds_cube (J : R) :
  0 < J -> Rpower J (2 / 3) * Rpower J (2 / 3) * Rpower J (2 / 3) = J * J.
Proof.
  intros HJ. rewrite <- !Rpower_plus.
  replace (2 / 3 + 2 / 3 + 2 / 3) with (1 + 1) by field.
  rewrite Rpower_plus, Rpower_1 by assumption. reflexivity.
Qed.

Lemma decompose_success (E Ebar0 : floatVector) (J0 : R) :
  length E = 9%nat -> 0 < Eigen.determinant (twoE_plus_I E) ->
  decomposeGreenLagrangeStrain E Ebar0 J0
  = (None, (decompose_Ebar E (sqrt (Eigen.determinant (twoE_plus_I E))),
            sqrt (Eigen.determinant (twoE_plus_I E)))).
Proof.
  intros HE Hpos. unfold decomposeGreenLagrangeStrain.
  rewrite HE. cbn [Nat.mul Nat.add Nat.eqb negb].
  rewrite (decompose_F_squared_eq E HE).
  rewrite bool_decide_true by assumption. reflexivity.
Qed.

Lemma decompose_failure (E Ebar0 : floatVector) (J0 : R) :
  length E = 9%nat -> Eigen.determinant (twoE_plus_I E) <= 0 ->
  decomposeGreenLagrangeStrain E Ebar0 J0
  = (check_failed DomainError "decomposeGreenLagrangeStrain"
       "the determinant of the Green-Lagrange strain is negative",
     (Ebar0, J0)).
Proof.
  intros HE Hneg. unfold decomposeGreenLagrangeStrain.
  rewrite HE. cbn [Nat.mul Nat.add Nat.eqb negb].
  rewrite (decompose_F_squared_eq E HE).
  rewrite bool_decide_false by lra. reflexivity.
Qed.

(** C4: for a strain of nine values the routine fails with a DomainError
    exactly when [det(2E + I) <= 0], leaving its outputs as they were, and
    otherwise succeeds with [J = sqrt(det(2E + I))] and
    [Ebar = E / J^(2/3) + 1/2 (J^(-2/3) - 1) I]; the strain
    [[-1,0,0, 0,1,0, 0,0,1]] fails with a DomainError. *)
Theorem decomposeGreenLagrangeStrain_domain
    (E Ebar0 : floatVector) (J0 : R) :
  length E = 9%nat ->
  let Jsq := Eigen.determinant (twoE_plus_I E) in
  ((exists e, decomposeGreenLagrangeStrain E Ebar0 J0 = (Some e, (Ebar0, J0))
              /\ kind e = DomainError) <-> Jsq <= 0)
  /\ (0 < Jsq ->
      exists Ebar,
        decomposeGreenLagrangeStrain E Ebar0 J0 = (None, (Ebar, sqrt Jsq))
        /\ length Ebar = 9%nat
        /\ forall I K, (I < 3)%nat -> (K < 3)%nat ->
             Ebar !!! (3 * I + K)%nat
             = E !!! (3 * I + K)%nat / Rpower (sqrt Jsq) (2 / 3)
               + 1 / 2 * (Rpower (sqrt Jsq) (- (2 / 3)) - 1) * deltaDirac I K)
  /\ (E = [-1; 0; 0; 0; 1; 0; 0; 0; 1] ->
      exists e, decomposeGreenLagrangeStrain E Ebar0 J0 = (Some e, (Ebar0, J0))
                /\ kind e = DomainError).
Proof.
  intros HE Jsq. split; [split|split].
  - intros (e & Heq & _). destruct (Rle_or_lt Jsq 0) as [H|H]; [assumption|].
    rewrite (decompose_success E Ebar0 J0 HE H) in Heq. discriminate Heq.
  - intros H. eexists. rewrite (decompose_failure E Ebar0 J0 HE H).
    split; reflexivity.
  - intros H. eexists. rewrite (decompose_success E Ebar0 J0 HE H).
    split; [reflexivity|]. split; [apply decompose_Ebar_length; assumption|].
    intros I K HI HK. apply decompose_Ebar_entry; try assumption.
    apply sqrt_lt_R0. assumption.
  - intros ->. eexists. rewrite decompose_failure; [split; reflexivity| reflexivity |].
    unfold twoE_plus_I. run. lra.
Qed.

Lemma decomposeGreenLagrangeStrain_scenario :
  exists e,
    decomposeGreenLagrangeStrain [-1; 0; 0; 0; 1; 0; 0; 0; 1] [] 0
    = (Some e, ([], 0)) /\ kind e = DomainError.
Proof.
  destruct (decomposeGreenLagrangeStrain_domain
              [-1; 0; 0; 0; 1; 0; 0; 0; 1] [] 0 eq_refl) as (_ & _ & H).
  exact (H eq_refl).
Defined.

Lemma Rpower_one (y : R) : Rpower 1 y = 1.
Proof. unfold Rpower. rewrite ln_1, Rmult_0_r. apply exp_0. Qed.

(** With [J = 1] the isochoric map leaves the strain as it is. *)
Lemma decompose_Ebar_one (E : list R) :
  length E = 9%nat -> decompose_Ebar E 1 = E.
Proof.
  intros HE. unfold decompose_Ebar. rewrite Rpower_one.
  explode E HE. run. by_entries; rewrite ?half_eq; field.
Qed.

(** C5: for a strain of nine values with [det(2E + I) > 0] the routine
    succeeds with [J = sqrt(det(2E + I))] and the isochoric part
    [Ebar = E / J^(2/3) + 1/2 (J^(-2/3) - 1) I]; that part has
    [det(2 Ebar + I) = 1], and applied to it the routine succeeds again,
    with volumetric part [J = 1] and the isochoric part unchanged. *)
Theorem decomposeGreenLagrangeStrain_idempotent
    (E Ebar0 Ebar1 : floatVector) (J0 J1 : R) :
  length E = 9%nat -> 0 < Eigen.determinant (twoE_plus_I E) ->
  exists Ebar J,
    decomposeGreenLagrangeStrain E Ebar0 J0 = (None, (Ebar, J))
    /\ J = sqrt (Eigen.determinant (twoE_plus_I E))
    /\ length Ebar = 9%nat
    /\ (forall I K, (I < 3)%nat -> (K < 3)%nat ->
          Ebar !!! (3 * I + K)%nat
          = E !!! (3 * I + K)%nat / Rpower J (2 / 3)
            + 1 / 2 * (Rpower J (- (2 / 3)) - 1) * deltaDirac I K)
    /\ Eigen.determinant (twoE_plus_I Ebar) = 1
    /\ decomposeGreenLagrangeStrain Ebar Ebar1 J1 = (None, (Ebar, 1)).
Proof.
  intros HE Hpos.
  set (Jsq := Eigen.determinant (twoE_plus_I E)) in *.
  exists (decompose_Ebar E (sqrt Jsq)), (sqrt Jsq).
  split; [apply decompose_success; assumption|].
  split; [reflexivity|].
  assert (HJ : 0 < sqrt Jsq) by (apply sqrt_lt_R0; assumption).
  assert (Hl : length (decompose_Ebar E (sqrt Jsq)) = 9%nat)
    by (apply decompose_Ebar_length; assumption).
  split; [exact Hl|].
  split; [intros I K HI HK; apply decompose_Ebar_entry; assumption|].
  assert (Hp : Rpower (sqrt Jsq) (2 / 3) <> 0).
  { unfold Rpower. pose proof (exp_pos (2 / 3 * ln (sqrt Jsq))). lra. }
  assert (Hdet : Eigen.determinant (twoE_plus_I (decompose_Ebar E (sqrt Jsq))) = 1).
  { rewrite <- decompose_F_squared_eq by exact Hl.
    unfold decompose_Ebar. rewrite (decompose_Ebar_det E _ HE Hp).
    rewrite (Rpower_two_thirds_cube _ HJ).
    rewrite sqrt_sqrt by lra.
    rewrite (decompose_F_squared_eq E HE). fold Jsq. field. lra. }
  split; [exact Hdet|].
  rewrite decompose_success; [|exact Hl|rewrite Hdet; lra].
  rewrite Hdet, sqrt_1, (decompose_Ebar_one _ Hl). reflexivity.
Qed.

Lemma decomposeGreenLagrangeStrain_idempotent_sheared :
  exists Ebar,
    decomposeGreenLagrangeStrain [2; 1 / 2; 0; 1 / 2; 0; 0; 0; 0; 0] [] 0
    = (None, (Ebar, 2))
    /\ Ebar !!! 1%nat = 1 / 2 / Rpower 2 (2 / 3)
    /\ decomposeGreenLagrangeStrain Ebar [] 0 = (None, (Ebar, 1)).
Proof.
  destruct (decomposeGreenLagrangeStrain_idempotent
              [2; 1 / 2; 0; 1 / 2; 0; 0; 0; 0; 0] [] [] 0 0 eq_refl)
    as (Ebar & J & H1 & HJ & _ & He & _ & H2).
  - unfold twoE_plus_I. run. lra.
  - assert (HJ2 : J = 2).
    { rewrite HJ.
      replace (Eigen.determinant (twoE_plus_I [2; 1 / 2; 0; 1 / 2; 0; 0; 0; 0; 0]))
        with (2 * 2) by (unfold twoE_plus_I; run; lra).
      apply sqrt_square. lra. }
    subst J. rewrite HJ2 in H1, He. exists Ebar.
    split; [exact H1|]. split; [|exact H2].
    pose proof (He 0%nat 1%nat (Nat.lt_0_succ 2)
                  (proj1 (Nat.succ_lt_mono 0 2) (Nat.lt_0_succ 1))) as H01.
    cbv [deltaDirac Nat.eqb Nat.mul Nat.add] in H01.
    cbn [lookup_total list_lookup_total] in H01.
    rewrite H01. unfold Rdiv. ring.
Defined.

(** ** evolveF *)

Lemma Eigen_inverse_l (M : floatVector) :
  length M = 9%nat -> Eigen.determinant M <> 0 ->
  Eigen.product (Eigen.inverse M) M = eye3.
Proof.
  intros HM Hdet. explode M HM. revert Hdet. run. intros Hd.
  by_entries; field; exact Hd.
Qed.

Lemma Eigen_inverse_r (M : floatVector) :
  length M = 9%nat -> Eigen.determinant M <> 0 ->
  Eigen.product M (Eigen.inverse M) = eye3.
Proof.
  intros HM Hdet. explode M HM. revert Hdet. run. intros Hd.
  by_entries; field; exact Hd.
Qed.

(** [M (X + M^-1 N) = M X + N] *)
Lemma Eigen_solve_l (M X N : floatVector) :
  length M = 9%nat -> length X = 9%nat -> length N = 9%nat ->
  Eigen.determinant M <> 0 ->
  Eigen.product M (vectorTools.add X (Eigen.product (Eigen.inverse M) N))
  = vectorTools.add (Eigen.product M X) N.
Proof.
  intros HM HX HN Hdet.
  explode M HM. explode X HX. explode N HN. revert Hdet. run. intros Hd.
  by_entries; field; exact Hd.
Qed.

(** [X + N M^-1 = (X M + N) M^-1] *)
Lemma Eigen_solve_r (M X N : floatVector) :
  length M = 9%nat -> length X = 9%nat -> length N = 9%nat ->
  Eigen.determinant M <> 0 ->
  vectorTools.add X (Eigen.product N (Eigen.inverse M))
  = Eigen.product (vectorTools.add (Eigen.product X M) N) (Eigen.inverse M).
Proof.
  intros HM HX HN Hdet.
  explode M HM. explode X HX. explode N HN. revert Hdet. run. intros Hd.
  by_entries; field; exact Hd.
Qed.

Lemma evolveF_LHS_length (Dt alpha : R) (L : floatVector) :
  length L = 9%nat -> length (evolveF_LHS Dt alpha L) = 9%nat.
Proof. intros HL. explode L HL. reflexivity. Qed.

(** The loop that builds [invLHS] before the inversion builds
    [I - Dt (1 - alpha) L]. *)
Lemma evolveF_invLHS_eq (Dt alpha : R) (L : floatVector) :
  length L = 9%nat ->
  for_loop 3 (fun i => add_at (3 * i + i) 1)
    (vectorTools.scale (- Dt * (1 - alpha)) L)
  = evolveF_LHS Dt alpha L.
Proof.
  intros HL. explode L HL. unfold evolveF_LHS. run. by_entries; ring.
Qed.

Lemma Eigen_product_scale_length (a : R) (X Y : floatVector) :
  length (vectorTools.scale a (Eigen.product X Y)) = 9%nat.
Proof. reflexivity. Qed.

(** [M Fp + Dt L* Fp = Fp + Dt alpha Lp Fp] for [M = I - Dt (1 - alpha) L]. *)
Lemma evolveF_blend_l (Dt alpha : R) (Fp Lp L : floatVector) :
  length Fp = 9%nat -> length Lp = 9%nat -> length L = 9%nat ->
  vectorTools.add (Eigen.product (evolveF_LHS Dt alpha L) Fp)
    (vectorTools.scale Dt (Eigen.product (evolveF_Lstar alpha Lp L) Fp))
  = vectorTools.add Fp (vectorTools.scale (Dt * alpha) (Eigen.product Lp Fp)).
Proof.
  intros HFp HLp HL. explode Fp HFp. explode Lp HLp. explode L HL.
  unfold evolveF_LHS, evolveF_Lstar. run. by_entries; ring.
Qed.

(** [Fp M + Dt Fp L* = Fp + Dt alpha Fp Lp] *)
Lemma evolveF_blend_r (Dt alpha : R) (Fp Lp L : floatVector) :
  length Fp = 9%nat -> length Lp = 9%nat -> length L = 9%nat ->
  vectorTools.add (Eigen.product Fp (evolveF_LHS Dt alpha L))
    (vectorTools.scale Dt (Eigen.product Fp (evolveF_Lstar alpha Lp L)))
  = vectorTools.add Fp (vectorTools.scale (Dt * alpha) (Eigen.product Fp Lp)).
Proof.
  intros HFp HLp HL. explode Fp HFp. explode Lp HLp. explode L HL.
  unfold evolveF_LHS, evolveF_Lstar. run. by_entries; ring.
Qed.

Lemma evolveF_dF (Fp dF : floatVector) :
  length Fp = 9%nat -> length dF = 9%nat ->
  dF = vsub (vectorTools.add Fp dF) Fp.
Proof.
  intros HFp HdF. explode Fp HFp. explode dF HdF. run. by_entries; ring.
Qed.

(** The value the routine returns, by mode. *)
Lemma evolveF_value (Dt alpha : R) (Fp Lp L dF0 F0 : floatVector) (mode : nat) :
  length Fp = 9%nat -> length Lp = 9%nat -> length L = 9%nat ->
  mode = 1%nat \/ mode = 2%nat ->
  evolveF Dt Fp Lp L dF0 F0 alpha mode
  = let M := evolveF_LHS Dt alpha L in
    let Lt := evolveF_Lstar alpha Lp L in
    let dF :=
      if (mode =? 1)%nat
      then Eigen.product (Eigen.inverse M) (vectorTools.scale Dt (Eigen.product Lt Fp))
      else Eigen.product (vectorTools.scale Dt (Eigen.product Fp Lt)) (Eigen.inverse M) in
    (None, (dF, vectorTools.add Fp dF)).
Proof.
  intros HFp HLp HL Hmode. unfold evolveF. cbv zeta.
  change (3 * 3)%nat with 9%nat. rewrite HFp, HLp, HL. cbn [Nat.eqb negb].
  rewrite (evolveF_invLHS_eq Dt alpha L HL). fold (evolveF_Lstar alpha Lp L).
  destruct Hmode as [-> | ->]; reflexivity.
Qed.

(** C1: for inputs of nine values, a mode in {1, 2} and an invertible
    [I - Dt (1 - alpha) L] the routine succeeds, the returned [dF] is
    [F - Fp], and the returned [F] satisfies, in mode 1,
    [[I - Dt (1 - alpha) L] F = Fp + Dt alpha Lp Fp], equivalently
    [F = Fp + [I - Dt (1 - alpha) L]^-1 Dt L* Fp], and in mode 2
    [F = (Fp + Dt alpha Fp Lp) [I - Dt (1 - alpha) L]^-1]. *)
Theorem evolveF_midpoint
    (Dt alpha : R) (Fp Lp L dF0 F0 : floatVector) (mode : nat) :
  length Fp = 9%nat -> length Lp = 9%nat -> length L = 9%nat ->
  Eigen.determinant (evolveF_LHS Dt alpha L) <> 0 ->
  mode = 1%nat \/ mode = 2%nat ->
  exists dF F,
    evolveF Dt Fp Lp L dF0 F0 alpha mode = (None, (dF, F))
    /\ dF = vsub F Fp
    /\ (mode = 1%nat ->
        Eigen.product (evolveF_LHS Dt alpha L) F
        = vectorTools.add Fp (vectorTools.scale (Dt * alpha) (Eigen.product Lp Fp))
        /\ F = vectorTools.add Fp
                 (Eigen.product (Eigen.inverse (evolveF_LHS Dt alpha L))
                    (vectorTools.scale Dt
                       (Eigen.product (evolveF_Lstar alpha Lp L) Fp))))
    /\ (mode = 2%nat ->
        F = Eigen.product
              (vectorTools.add Fp
                 (vectorTools.scale (Dt * alpha) (Eigen.product Fp Lp)))
              (Eigen.inverse (evolveF_LHS Dt alpha L))).
Proof.
  intros HFp HLp HL Hdet Hmode.
  pose proof (evolveF_LHS_length Dt alpha L HL) as HM.
  eexists _, _. split.
  { rewrite (evolveF_value Dt alpha Fp Lp L dF0 F0 mode HFp HLp HL Hmode).
    cbv zeta. reflexivity. }
  split.
  { apply evolveF_dF; [assumption|]. destruct Hmode as [-> | ->]; reflexivity. }
  split.
  - intros ->. cbn [Nat.eqb]. split; [|reflexivity].
    rewrite (Eigen_solve_l _ Fp _ HM HFp (Eigen_product_scale_length _ _ _) Hdet).
    apply evolveF_blend_l; assumption.
  - intros ->. cbn [Nat.eqb].
    rewrite (Eigen_solve_r _ Fp _ HM HFp (Eigen_product_scale_length _ _ _) Hdet).
    rewrite evolveF_blend_r by assumption. reflexivity.
Qed.

Lemma evolveF_midpoint_example :
  exists dF F,
    evolveF 2 eye3 (replicate 9 0) [0; 1; 0; 0; 0; 0; 0; 0; 0] [] [] (1 / 2) 1
    = (None, (dF, F))
    /\ dF = vsub F eye3.
Proof.
  destruct (evolveF_midpoint 2 (1 / 2) eye3 (replicate 9 0)
              [0; 1; 0; 0; 0; 0; 0; 0; 0] [] [] 1
              eq_refl eq_refl eq_refl)
    as (dF & F & Heq & Hd & _).
  - unfold evolveF_LHS. run. lra.
  - left. reflexivity.
  - exists dF, F. split; assumption.
Defined.

(** ** pushForwardGreenLagrangeStrain and pullBackAlmansiStrain *)

(** On nine values the general determinant is the 3x3 expansion. *)
Lemma vectorTools_determinant_3 (F : floatVector) :
  length F = 9%nat -> vectorTools.determinant F 3 3 = Eigen.determinant F.
Proof. intros HF. explode F HF. run. ring. Qed.

(** On nine values the general inverse is the 3x3 cofactor inverse. *)
Lemma vectorTools_inverse_3 (F : floatVector) :
  length F = 9%nat -> vectorTools.inverse F 3 3 = Eigen.inverse F.
Proof.
  intros HF. explode F HF. run.
  by_entries; unfold Rdiv; (f_equal; [ring | f_equal; ring]).
Qed.

(** [(F^-1)^T (E F^-1)] pulled back by [F^T . F] is [E]. *)
Lemma pullBack_pushForward_value (E F : floatVector) :
  length E = 9%nat -> length F = 9%nat -> Eigen.determinant F <> 0 ->
  vectorTools.matrixMultiply
    (vectorTools.matrixMultiply F
       (vectorTools.matrixMultiply (Eigen.inverse F)
          (vectorTools.matrixMultiply E (Eigen.inverse F) 3 3 3 3 false false)
          3 3 3 3 true false)
       3 3 3 3 true false)
    F 3 3 3 3 false false
  = E.
Proof.
  intros HE HF Hdet. explode E HE. explode F HF. revert Hdet. run. intros Hd.
  by_entries; field; exact Hd.
Qed.

(** C6: for a strain of nine values and an invertible deformation gradient
    of nine values both routines succeed, and pulling back the pushed
    forward strain returns the strain. *)
Theorem pullBack_pushForward_roundtrip (E F e0 E0 : floatVector) :
  length E = 9%nat -> length F = 9%nat ->
  vectorTools.determinant F 3 3 <> 0 ->
  exists e,
    pushForwardGreenLagrangeStrain E F e0 = (None, e)
    /\ pullBackAlmansiStrain e F E0 = (None, E).
Proof.
  intros HE HF Hdet.
  rewrite (vectorTools_determinant_3 F HF) in Hdet.
  unfold pushForwardGreenLagrangeStrain, pullBackAlmansiStrain. cbv zeta.
  rewrite (vectorTools_inverse_3 F HF).
  eexists. split; [reflexivity|].
  rewrite (pullBack_pushForward_value E F HE HF Hdet). reflexivity.
Qed.

Lemma pullBack_pushForward_example :
  exists e,
    pushForwardGreenLagrangeStrain
      [1; 2; 3; 4; 5; 6; 7; 8; 9] [2; 1; 0; 0; 1; 0; 0; 0; 1] [] = (None, e)
    /\ pullBackAlmansiStrain e [2; 1; 0; 0; 1; 0; 0; 0; 1] []
       = (None, [1; 2; 3; 4; 5; 6; 7; 8; 9]).
Proof.
  apply (pullBack_pushForward_roundtrip
           [1; 2; 3; 4; 5; 6; 7; 8; 9] [2; 1; 0; 0; 1; 0; 0; 0; 1] [] []
           eq_refl eq_refl).
  run. lra.
Defined.

(** ** mapPK2toCauchy and pushForwardPK2Stress *)

Lemma round_sqrt_square (d : nat) : round_sqrt (d * d) = d.
Proof.
  unfold round_sqrt. rewrite Nat.sqrt_square, Nat.sub_diag.
  destruct (Nat.ltb_spec d 0); [lia|reflexivity].
Qed.

Lemma round_sqrt_check (n : nat) :
  (round_sqrt n * round_sqrt n =? n)%nat = true <-> exists d, n = (d * d)%nat.
Proof.
  rewrite Nat.eqb_eq. split.
  - intros H. exists (round_sqrt n). symmetry. exact H.
  - intros [d ->]. rewrite round_sqrt_square. reflexivity.
Qed.

Lemma mapPK2toCauchy_error (S F c0 : floatVector) :
  length S <> 9%nat \/ length F <> 9%nat ->
  exists e, mapPK2toCauchy S F c0 = (Some e, c0) /\ kind e = ShapeError.
Proof.
  intros H. unfold mapPK2toCauchy. cbv zeta. change (3 * 3)%nat with 9%nat.
  destruct (Nat.eqb_spec (length S) 9) as [E1|N1]; cbn [negb].
  - destruct (Nat.eqb_spec (length F) (length S)) as [E2|N2]; cbn [negb].
    + exfalso. destruct H as [H|H]; apply H; congruence.
    + eexists. split; reflexivity.
  - eexists. split; reflexivity.
Qed.

Lemma mapPK2toCauchy_success (S F c0 : floatVector) :
  length S = 9%nat -> length F = 9%nat ->
  exists c, mapPK2toCauchy S F c0 = (None, c) /\ length c = 9%nat.
Proof.
  intros HS HF. unfold mapPK2toCauchy. cbv zeta. change (3 * 3)%nat with 9%nat.
  rewrite HF, HS. cbn [Nat.eqb negb]. eexists. split; [reflexivity|].
  explode S HS. explode F HF. reflexivity.
Qed.

Lemma pushForwardPK2Stress_error (S F c0 : floatVector) :
  (forall d, length S <> (d * d)%nat) \/ length F <> length S ->
  exists e, pushForwardPK2Stress S F c0 = (Some e, c0) /\ kind e = ShapeError.
Proof.
  intros H. unfold pushForwardPK2Stress. cbv zeta.
  destruct (Nat.eqb_spec (round_sqrt (length S) * round_sqrt (length S)) (length S))
    as [E1|N1]; cbn [negb].
  - destruct (Nat.eqb_spec (length S) (length F)) as [E2|N2]; cbn [negb].
    + exfalso. destruct H as [H|H]; [|congruence].
      apply (H (round_sqrt (length S))). symmetry. exact E1.
    + eexists. split; reflexivity.
  - eexists. split; reflexivity.
Qed.

Lemma length_flat_map_rows {T : Type} (g : nat -> nat -> T) (m : nat) (l : list nat) :
  length (flat_map (fun i => map (g i) (seq 0 m)) l) = (length l * m)%nat.
Proof.
  induction l as [|x l IH]; [reflexivity|].
  cbn [flat_map length]. rewrite length_app, length_map, length_seq, IH. lia.
Qed.

Lemma vectorTools_matrixMultiply_length (A B : floatVector) (d : nat) (ta tb : bool) :
  length (vectorTools.matrixMultiply A B d d d d ta tb) = (d * d)%nat.
Proof.
  unfold vectorTools.matrixMultiply.
  destruct ta, tb; cbv zeta; rewrite length_flat_map_rows, length_seq; reflexivity.
Qed.

Lemma pushForwardPK2Stress_success (S F c0 : floatVector) (d : nat) :
  length S = (d * d)%nat -> length F = length S ->
  exists c, pushForwardPK2Stress S F c0 = (None, c) /\ length c = (d * d)%nat.
Proof.
  intros HS HF. unfold pushForwardPK2Stress. cbv zeta.
  rewrite HF, HS, round_sqrt_square, !Nat.eqb_refl. cbn [negb].
  eexists. split; [reflexivity|].
  unfold vectorTools.divide.
  rewrite length_map, vectorTools_matrixMultiply_length. reflexivity.
Qed.

(** C8, as stated, fails: [pushForwardPK2Stress] accepts a stress and a
    deformation gradient of four values (a 2x2 problem), neither of length
    nine, and returns the pushed-forward stress. *)
Lemma pushForwardPK2Stress_accepts_2x2 :
  length [1; 2; 3; 4] <> 9%nat /\ length [1; 0; 0; 1] <> 9%nat
  /\ pushForwardPK2Stress [1; 2; 3; 4] [1; 0; 0; 1] [] = (None, [1; 2; 3; 4]).
Proof.
  split; [discriminate|]. split; [discriminate|].
  unfold pushForwardPK2Stress.
  replace (round_sqrt (length [1; 2; 3; 4])) with 2%nat by reflexivity.
  cbn [length Nat.mul Nat.add Nat.eqb negb]. cbv zeta. run.
  f_equal. by_entries; field.
Qed.

(** C8, amended: [mapPK2toCauchy] fails with a ShapeError whenever either
    input is not of length nine (so whenever the sizes differ);
    [pushForwardPK2Stress] fails with a ShapeError whenever the sizes differ
    or the length of the stress is not a perfect square, and succeeds on
    every pair of one perfect-square length [d * d], returning [d * d]
    values; both succeed on every pair of length nine. *)
Theorem PK2_push_forward_shape (S F c0 : floatVector) :
  (length F <> length S ->
   (exists e, mapPK2toCauchy S F c0 = (Some e, c0) /\ kind e = ShapeError)
   /\ (exists e, pushForwardPK2Stress S F c0 = (Some e, c0)
                 /\ kind e = ShapeError))
  /\ ((length S <> 9%nat \/ length F <> 9%nat) ->
   exists e, mapPK2toCauchy S F c0 = (Some e, c0) /\ kind e = ShapeError)
  /\ (((forall d, length S <> (d * d)%nat) \/ length F <> length S) ->
      exists e, pushForwardPK2Stress S F c0 = (Some e, c0) /\ kind e = ShapeError)
  /\ (forall d, length S = (d * d)%nat -> length F = length S ->
      exists c, pushForwardPK2Stress S F c0 = (None, c) /\ length c = (d * d)%nat)
  /\ (length S = 9%nat -> length F = 9%nat ->
      (exists c, mapPK2toCauchy S F c0 = (None, c) /\ length c = 9%nat)
      /\ (exists c, pushForwardPK2Stress S F c0 = (None, c) /\ length c = 9%nat)).
Proof.
  split.
  { intros Hne. split.
    - apply mapPK2toCauchy_error.
      destruct (decide (length S = 9%nat)); [right; congruence | left; assumption].
    - apply pushForwardPK2Stress_error. right. exact Hne. }
  split; [apply mapPK2toCauchy_error|].
  split; [apply pushForwardPK2Stress_error|].
  split; [intros d; apply pushForwardPK2Stress_success|].
  intros HS HF. split.
  - apply mapPK2toCauchy_success; assumption.
  - apply (pushForwardPK2Stress_success S F c0 3); [exact HS | congruence].
Qed.

Lemma PK2_push_forward_shape_3x3 :
  (exists c, mapPK2toCauchy eye3 eye3 [] = (None, c) /\ length c = 9%nat)
  /\ (exists c, pushForwardPK2Stress eye3 eye3 [] = (None, c) /\ length c = 9%nat).
Proof.
  destruct (PK2_push_forward_shape eye3 eye3 []) as (_ & _ & _ & _ & H).
  exact (H eq_refl eq_refl).
Defined.

(** ** Accumulating loops *)

Lemma sumR_ext (n : nat) (f g : nat -> R) :
  (forall i, (i < n)%nat -> f i = g i) -> sumR n f = sumR n g.
Proof.
  induction n as [|n IH]; intros H; [reflexivity|].
  cbn [sumR]. rewrite IH, H by (intros; try apply H; lia). reflexivity.
Qed.

Lemma sumR_zero (n : nat) : sumR n (fun _ => 0) = 0.
Proof. induction n as [|n IH]; cbn [sumR]; [reflexivity|]. rewrite IH. ring. Qed.

Lemma sumR_guard (n : nat) (P : Prop) `{!Decision P} (f : nat -> R) :
  sumR n (fun i => if decide P then f i else 0)
  = if decide P then sumR n f else 0.
Proof. destruct (decide P); [reflexivity|apply sumR_zero]. Qed.

Lemma sumR_single (n i0 : nat) (x : R) :
  (i0 < n)%nat ->
  sumR n (fun i => if decide (i = i0) then x else 0) = x.
Proof.
  induction n as [|n IH]; intros H; [lia|]. cbn [sumR].
  destruct (decide (n = i0)) as [->|Hne].
  - rewrite (sumR_ext i0 _ (fun _ => 0)), sumR_zero; [ring|].
    intros i Hi. rewrite decide_False by lia. reflexivity.
  - rewrite IH by lia. ring.
Qed.

Lemma adds_add_at (n idx : nat) (x : R) :
  (idx < n)%nat ->
  adds n (add_at idx x) (fun k => if decide (k = idx) then x else 0).
Proof.
  intros Hi v Hv. unfold add_at. split; [rewrite length_insert; exact Hv|].
  intros k. destruct (decide (k = idx)) as [->|Hne].
  - rewrite list_lookup_total_insert_eq by lia. reflexivity.
  - rewrite list_lookup_total_insert_ne by congruence. ring.
Qed.

Lemma adds_for_loop (n m : nat) (body : nat -> list R -> list R)
    (delta : nat -> nat -> R) :
  (forall i, (i < m)%nat -> adds n (body i) (delta i)) ->
  adds n (for_loop m body) (fun k => sumR m (fun i => delta i k)).
Proof.
  induction m as [|m IH]; intros H v Hv.
  - split; [exact Hv|]. intros k. cbn. ring.
  - unfold for_loop. rewrite seq_S, fold_left_app. cbn [fold_left Nat.add].
    destruct (IH (fun i Hi => H i (Nat.lt_lt_succ_r _ _ Hi)) v Hv) as [Hl Hk].
    fold (for_loop m body v).
    destruct (H m (Nat.lt_succ_diag_r m) (for_loop m body v) Hl) as [Hl' Hk'].
    split; [exact Hl'|]. intros k. rewrite Hk', Hk. cbn [sumR]. ring.
Qed.

(** ** rotateMatrix *)

Lemma flat_index_unique (dim i j i0 j0 : nat) :
  (j < dim)%nat -> (j0 < dim)%nat ->
  (i0 * dim + j0 = i * dim + j)%nat <-> i = i0 /\ j = j0.
Proof.
  intros Hj Hj0. split; [|intros [-> ->]; reflexivity]. intros H.
  assert (Hi : i = i0).
  { destruct (Nat.lt_trichotomy i i0) as [Hlt|[Heq|Hgt]]; [|exact Heq|].
    - pose proof (Nat.mul_le_mono_r (S i) i0 dim Hlt). cbn [Nat.mul] in *. lia.
    - pose proof (Nat.mul_le_mono_r (S i0) i dim Hgt). cbn [Nat.mul] in *. lia. }
  subst i0. split; [reflexivity|lia].
Qed.

Lemma rotateMatrix_loops_adds (n dim : nat) (A Q : list R) :
  (dim * dim <= n)%nat ->
  adds n (rotateMatrix_loops dim A Q)
    (fun k => sumR dim (fun i => sumR dim (fun j =>
       sumR dim (fun I => sumR dim (fun J =>
         if decide (k = i * dim + j)%nat
         then rotateMatrix_term dim A Q i j I J else 0))))).
Proof.
  intros Hn. unfold rotateMatrix_loops.
  apply (adds_for_loop n dim _ (fun i k => _)). intros i Hi.
  apply (adds_for_loop n dim _ (fun j k => _)). intros j Hj.
  apply (adds_for_loop n dim _ (fun I k => _)). intros I HI.
  apply (adds_for_loop n dim _ (fun J k => _)). intros J HJ.
  apply adds_add_at. nia.
Qed.

Lemma rotateMatrix_sum_collapse (dim i0 j0 : nat) (A Q : list R) :
  (i0 < dim)%nat -> (j0 < dim)%nat ->
  sumR dim (fun i => sumR dim (fun j =>
    sumR dim (fun I => sumR dim (fun J =>
      if decide (i0 * dim + j0 = i * dim + j)%nat
      then rotateMatrix_term dim A Q i j I J else 0))))
  = QtAQ dim A Q i0 j0.
Proof.
  intros Hi0 Hj0.
  rewrite (sumR_ext dim _ (fun i => if decide (i = i0) then QtAQ dim A Q i0 j0 else 0)).
  { apply sumR_single; assumption. }
  intros i Hi.
  rewrite (sumR_ext dim _
    (fun j => if decide (j = j0)
              then (if decide (i = i0) then QtAQ dim A Q i0 j0 else 0) else 0)).
  { apply sumR_single; assumption. }
  intros j Hj.
  rewrite (sumR_ext dim _ (fun I =>
     if decide (i0 * dim + j0 = i * dim + j)%nat
     then sumR dim (fun J => rotateMatrix_term dim A Q i j I J) else 0))
    by (intros; apply sumR_guard).
  rewrite sumR_guard.
  pose proof (flat_index_unique dim i j i0 j0 Hj Hj0) as Hu.
  destruct (decide (i0 * dim + j0 = i * dim + j)%nat) as [He|Hne].
  - destruct (proj1 Hu He) as [-> ->]. rewrite !decide_True by reflexivity.
    reflexivity.
  - destruct (decide (j = j0)) as [->|]; [|reflexivity].
    destruct (decide (i = i0)) as [->|]; [|reflexivity].
    exfalso. apply Hne. reflexivity.
Qed.

(** What the call returns once both checks pass: the resized output with
    [Q^T A Q] added to it. *)
Lemma rotateMatrix_accumulates (A Q r0 : list R) (dim : nat) :
  dim <> 0%nat -> length A = (dim * dim)%nat -> length Q = length A ->
  exists r,
    rotateMatrix A Q r0 = Some (None, r)
    /\ length r = length A
    /\ forall i j, (i < dim)%nat -> (j < dim)%nat ->
         r !!! (i * dim + j)%nat
         = resize (length A) 0 r0 !!! (i * dim + j)%nat + QtAQ dim A Q i j.
Proof.
  intros Hdim HA HQ. unfold rotateMatrix.
  rewrite HQ, Nat.eqb_refl. cbn [negb]. cbv zeta.
  rewrite HA, Nat.sqrt_square.
  destruct (Nat.eqb_spec dim 0) as [|_]; [contradiction|].
  rewrite Nat.Div0.mod_mul. cbn [Nat.eqb negb].
  destruct (rotateMatrix_loops_adds (dim * dim) dim A Q (Nat.le_refl _)
              (resize (dim * dim) 0 r0) (length_resize _ _ _)) as [Hl Hk].
  eexists. split; [reflexivity|]. split; [exact Hl|].
  intros i j Hi Hj. rewrite Hk, rotateMatrix_sum_collapse by assumption.
  reflexivity.
Qed.

(** The empty input has no defined result: the dimension is 0 and the
    squareness check divides by it. *)
Lemma rotateMatrix_empty (r0 : list R) : rotateMatrix [] [] r0 = None.
Proof. reflexivity. Qed.

(** The squareness check is [A.size() % dim], which any multiple of the
    integer square root passes. *)
Lemma rotateMatrix_check (A Q r0 : list R) :
  length Q = length A -> Nat.sqrt (length A) <> 0%nat ->
  (length A mod Nat.sqrt (length A) = 0)%nat ->
  exists r, rotateMatrix A Q r0 = Some (None, r).
Proof.
  intros HQ Hs Hm. unfold rotateMatrix. rewrite HQ, Nat.eqb_refl. cbn [negb].
  cbv zeta. destruct (Nat.eqb_spec (Nat.sqrt (length A)) 0) as [|_];
    [contradiction|].
  rewrite Hm. cbn [Nat.eqb negb]. eexists. reflexivity.
Qed.

(** C9, at an input that shows the defect: six values are not a perfect
    square, yet the call succeeds; it takes the dimension to be 2, rotates
    the first four values and leaves the other two of the resized output
    untouched. *)
Theorem rotateMatrix_accepts_six_values :
  (forall d, length [1; 2; 3; 4; 5; 6] <> (d * d)%nat)
  /\ rotateMatrix [1; 2; 3; 4; 5; 6] [1; 0; 0; 1; 0; 0] []
     = Some (None, [1; 2; 3; 4; 0; 0]).
Proof.
  split.
  - intros d. cbn [length]. destruct d as [|[|[|d]]]; lia.
  - unfold rotateMatrix. cbn [length Nat.eqb negb]. cbv zeta.
    replace (Nat.sqrt 6) with 2%nat by reflexivity.
    replace (6 mod 2)%nat with 0%nat by reflexivity.
    cbn [Nat.eqb negb]. unfold rotateMatrix_loops, rotateMatrix_term. run.
    do 2 f_equal. by_entries; ring.
Qed.

(** C10, as stated, fails in its "only when": an output that is neither
    empty nor all-zero on entry, but whose non-zero values lie beyond the
    length of [A], is truncated by the resize and the documented result is
    returned. *)
Lemma rotateMatrix_truncated_output :
  exists r,
    rotateMatrix [1; 0; 0; 1] [1; 0; 0; 1] [0; 0; 0; 0; 5] = Some (None, r)
    /\ (forall i j, (i < 2)%nat -> (j < 2)%nat ->
          r !!! (i * 2 + j)%nat = QtAQ 2 [1; 0; 0; 1] [1; 0; 0; 1] i j)
    /\ [0; 0; 0; 0; 5] <> []
    /\ ~ Forall (fun x => x = 0) [0; 0; 0; 0; 5].
Proof.
  destruct (rotateMatrix_accumulates [1; 0; 0; 1] [1; 0; 0; 1] [0; 0; 0; 0; 5] 2)
    as (r & Heq & _ & Hr); [discriminate|reflexivity|reflexivity|].
  exists r. split; [exact Heq|]. split; [|split].
  - intros i j Hi Hj. rewrite (Hr i j Hi Hj).
    destruct i as [|[|i]]; [| |lia]; (destruct j as [|[|j]]; [| |lia]);
      cbn [length resize take replicate Nat.sub Nat.mul Nat.add app
           lookup_total list_lookup_total]; ring.
  - discriminate.
  - intros H. do 4 (apply Forall_cons_1 in H; destruct H as [_ H]).
    apply Forall_cons_1 in H. destruct H as [H _]. lra.
Qed.

(** C10, amended: for a well-shaped input the call resizes the output to
    the length of [A] and adds [Q_Ii A_IJ Q_Jj] onto its entries; for an
    output of that length on entry the result is the prior contents plus
    [Q^T A Q]; the documented result [Q^T A Q] is returned exactly when the
    entries of the output that survive the resize are all zero on entry, in
    particular when it is empty or all-zero. *)
Theorem rotateMatrix_accumulation (A Q r0 : list R) (dim : nat) :
  dim <> 0%nat -> length A = (dim * dim)%nat -> length Q = length A ->
  exists r,
    rotateMatrix A Q r0 = Some (None, r)
    /\ length r = length A
    /\ (forall i j, (i < dim)%nat -> (j < dim)%nat ->
          r !!! (i * dim + j)%nat
          = resize (length A) 0 r0 !!! (i * dim + j)%nat + QtAQ dim A Q i j)
    /\ (length r0 = length A ->
        forall i j, (i < dim)%nat -> (j < dim)%nat ->
          r !!! (i * dim + j)%nat = r0 !!! (i * dim + j)%nat + QtAQ dim A Q i j)
    /\ ((forall i j, (i < dim)%nat -> (j < dim)%nat ->
           r !!! (i * dim + j)%nat = QtAQ dim A Q i j)
        <-> (forall k, (k < length A)%nat -> (k < length r0)%nat -> r0 !!! k = 0))
    /\ (r0 = [] \/ Forall (fun x => x = 0) r0 ->
        forall i j, (i < dim)%nat -> (j < dim)%nat ->
          r !!! (i * dim + j)%nat = QtAQ dim A Q i j).
Proof.
  intros Hdim HA HQ.
  destruct (rotateMatrix_accumulates A Q r0 dim Hdim HA HQ) as (r & Heq & Hl & Hr).
  exists r. split; [exact Heq|]. split; [exact Hl|]. split; [exact Hr|].
  assert (Hiff : (forall i j, (i < dim)%nat -> (j < dim)%nat ->
                    r !!! (i * dim + j)%nat = QtAQ dim A Q i j)
                 <-> (forall k, (k < length A)%nat -> (k < length r0)%nat ->
                        r0 !!! k = 0)).
  { split.
    - intros H k Hk Hk0.
      assert (Hd : (k / dim < dim)%nat) by (apply Nat.Div0.div_lt_upper_bound; lia).
      assert (Hm : (k mod dim < dim)%nat) by (apply Nat.mod_upper_bound; exact Hdim).
      pose proof (Hr _ _ Hd Hm) as E. rewrite (H _ _ Hd Hm) in E.
      replace (k / dim * dim + k mod dim)%nat with k in E
        by (rewrite (Nat.div_mod_eq k dim) at 1; lia).
      rewrite lookup_total_resize in E by assumption. lra.
    - intros H i j Hi Hj. rewrite (Hr i j Hi Hj).
      assert (Hk : (i * dim + j < length A)%nat) by nia.
      destruct (decide (i * dim + j < length r0)%nat) as [Hlt|Hge].
      + rewrite lookup_total_resize by assumption. rewrite (H _ Hk Hlt). ring.
      + rewrite lookup_total_resize_new by lia. ring. }
  split; [|split; [exact Hiff|]].
  - intros Hr0 i j Hi Hj. rewrite (Hr i j Hi Hj). rewrite <- Hr0, resize_all.
    reflexivity.
  - intros H0. apply Hiff. intros k _ Hk. destruct H0 as [->|Hall].
    + cbn [length] in Hk. lia.
    + destruct (lookup_lt_is_Some_2 r0 k Hk) as [x Hx].
      rewrite (list_lookup_total_correct _ _ _ Hx).
      exact (proj1 (Forall_lookup _ _) Hall k x Hx).
Qed.

Lemma rotateMatrix_accumulation_2x2 :
  exists r,
    rotateMatrix [1; 2; 3; 4] [0; 1; 1; 0] [10; 20; 30; 40] = Some (None, r)
    /\ forall i j, (i < 2)%nat -> (j < 2)%nat ->
         r !!! (i * 2 + j)%nat
         = [10; 20; 30; 40] !!! (i * 2 + j)%nat
           + QtAQ 2 [1; 2; 3; 4] [0; 1; 1; 0] i j.
Proof.
  destruct (rotateMatrix_accumulation [1; 2; 3; 4] [0; 1; 1; 0] [10; 20; 30; 40] 2)
    as (r & Heq & _ & _ & Hr & _); [discriminate|reflexivity|reflexivity|].
  exists r. split; [exact Heq | exact (Hr eq_refl)].
Defined.

(** * Further properties of the routines *)

(** [run], extended to the further routines. *)
Ltac run_all :=
  cbv [for_loop add_at fold_left seq lookup_total list_lookup_total
       insert list_insert delete list_delete
       resize replicate take drop zip_with map flat_map app length
       Nat.mul Nat.add Nat.eqb Nat.sub negb deltaDirac sumR pow
       Eigen.determinant Eigen.inverse Eigen.product
       vectorTools.scale vectorTools.divide vectorTools.add
       vectorTools.entry vectorTools.matrixMultiply vectorTools.inflate
       vectorTools.det vectorTools.determinant vectorTools.cofactor
       vectorTools.inverse
       decompose_F_squared decompose_Ebar eye3 vsub twoE_plus_I
       evolveF_LHS evolveF_Lstar
       std_copy Eigen_dynamic_inverse Eigen_transpose scale_r fst snd].

(** ** Right Cauchy-Green tensor and Green-Lagrange strain *)

Lemma computeRightCauchyGreen_value (F C0 : list R) :
  length F = 9%nat ->
  computeRightCauchyGreen F C0 = (None, Eigen.product (Eigen_transpose F) F).
Proof.
  intros HF. unfold computeRightCauchyGreen. cbv zeta.
  change (3 * 3)%nat with 9%nat. rewrite HF. reflexivity.
Qed.

(** X1: [computeRightCauchyGreen] fails with a ShapeError, leaving its
    output untouched, when the deformation gradient is not of nine values;
    otherwise it returns [C_IJ = sum_i F_iI F_iJ], which is symmetric. *)
Theorem computeRightCauchyGreen_symmetric (F C0 : list R) :
  (length F <> 9%nat ->
   exists e, computeRightCauchyGreen F C0 = (Some e, C0) /\ kind e = ShapeError)
  /\ (length F = 9%nat ->
      exists C,
        computeRightCauchyGreen F C0 = (None, C) /\ length C = 9%nat
        /\ (forall I J, (I < 3)%nat -> (J < 3)%nat ->
              C !!! (3 * I + J)%nat
              = sumR 3 (fun i => F !!! (3 * i + I)%nat * F !!! (3 * i + J)%nat))
        /\ (forall I J, (I < 3)%nat -> (J < 3)%nat ->
              C !!! (3 * I + J)%nat = C !!! (3 * J + I)%nat)).
Proof.
  split.
  - intros HF. unfold computeRightCauchyGreen. cbv zeta.
    change (3 * 3)%nat with 9%nat.
    destruct (Nat.eqb_spec (length F) 9) as [|_]; [contradiction|].
    eexists. split; reflexivity.
  - intros HF. rewrite (computeRightCauchyGreen_value F C0 HF).
    eexists. split; [reflexivity|]. explode F HF.
    split; [reflexivity|]. split.
    + intros I J HI HJ.
      destruct I as [|[|[|I]]]; [| | |lia];
        (destruct J as [|[|[|J]]]; [| | |lia]); run_all; ring.
    + intros I J HI HJ.
      destruct I as [|[|[|I]]]; [| | |lia];
        (destruct J as [|[|[|J]]]; [| | |lia]); run_all; ring.
Qed.

Lemma computeRightCauchyGreen_symmetric_example :
  exists C,
    computeRightCauchyGreen [1; 2; 0; 0; 1; 0; 0; 0; 1] [] = (None, C)
    /\ C !!! 1%nat = C !!! 3%nat.
Proof.
  destruct (computeRightCauchyGreen_symmetric [1; 2; 0; 0; 1; 0; 0; 0; 1] [])
    as [_ H].
  destruct (H eq_refl) as (C & HC & _ & _ & Hs).
  exists C. split; [exact HC|]. exact (Hs 0%nat 1%nat ltac:(lia) ltac:(lia)).
Defined.

Lemma computeGreenLagrangeStrain_value (F E0 : list R) :
  length F = 9%nat ->
  computeGreenLagrangeStrain F E0
  = (None, vectorTools.scale (1 / 2)
             (vsub (Eigen.product (Eigen_transpose F) F) eye3)).
Proof.
  intros HF. unfold computeGreenLagrangeStrain. rewrite HF. cbn [Nat.eqb negb].
  change (3 * 3)%nat with 9%nat.
  remember (resize 9 0 E0) as E1 eqn:HE1.
  assert (HE : length E1 = 9%nat) by (rewrite HE1; apply length_resize).
  clear HE1. explode F HF. explode E1 HE. run_all.
  f_equal. by_entries; rewrite half_eq; field.
Qed.

(** X2: for a deformation gradient of nine values both routines succeed
    and the Green-Lagrange strain is half the right Cauchy-Green tensor
    minus the identity. *)
Theorem GreenLagrange_from_RightCauchyGreen (F E0 C0 : list R) :
  length F = 9%nat ->
  (computeGreenLagrangeStrain F E0).1 = None
  /\ (computeRightCauchyGreen F C0).1 = None
  /\ (computeGreenLagrangeStrain F E0).2
     = vectorTools.scale (1 / 2) (vsub (computeRightCauchyGreen F C0).2 eye3).
Proof.
  intros HF. rewrite (computeGreenLagrangeStrain_value F E0 HF),
    (computeRightCauchyGreen_value F C0 HF).
  repeat split.
Qed.

Lemma GreenLagrange_from_RightCauchyGreen_example :
  (computeGreenLagrangeStrain [1; 2; 0; 0; 1; 0; 0; 0; 1] []).2
  = vectorTools.scale (1 / 2)
      (vsub (computeRightCauchyGreen [1; 2; 0; 0; 1; 0; 0; 0; 1] []).2 eye3).
Proof.
  exact (proj2 (proj2 (GreenLagrange_from_RightCauchyGreen
                         [1; 2; 0; 0; 1; 0; 0; 0; 1] [] [] eq_refl))).
Defined.

Lemma Eigen_product_eye_l (M : list R) :
  length M = 9%nat -> Eigen.product eye3 M = M.
Proof. intros HM. explode M HM. run_all. by_entries; ring. Qed.

(** [(Q F)^T (Q F) = F^T ((Q^T Q) F)] *)
Lemma RightCauchyGreen_of_product (Q F : list R) :
  length Q = 9%nat -> length F = 9%nat ->
  Eigen.product (Eigen_transpose (Eigen.product Q F)) (Eigen.product Q F)
  = Eigen.product (Eigen_transpose F)
      (Eigen.product (Eigen.product (Eigen_transpose Q) Q) F).
Proof.
  intros HQ HF. explode Q HQ. explode F HF. run_all. by_entries; ring.
Qed.

(** X3: the right Cauchy-Green tensor and the Green-Lagrange strain do not
    see a superposed rigid rotation: for [Q^T Q = I] they are the same for
    [Q F] as for [F]. *)
Theorem GreenLagrange_objective (Q F E0 C0 : list R) :
  length Q = 9%nat -> length F = 9%nat ->
  Eigen.product (Eigen_transpose Q) Q = eye3 ->
  computeRightCauchyGreen (Eigen.product Q F) C0 = computeRightCauchyGreen F C0
  /\ computeGreenLagrangeStrain (Eigen.product Q F) E0
     = computeGreenLagrangeStrain F E0.
Proof.
  intros HQ HF Horth.
  assert (HQF : length (Eigen.product Q F) = 9%nat) by reflexivity.
  rewrite !computeRightCauchyGreen_value, !computeGreenLagrangeStrain_value
    by assumption.
  rewrite (RightCauchyGreen_of_product Q F HQ HF), Horth,
    (Eigen_product_eye_l F HF).
  split; reflexivity.
Qed.

Lemma GreenLagrange_objective_example :
  computeGreenLagrangeStrain
    (Eigen.product [0; -1; 0; 1; 0; 0; 0; 0; 1] [1; 2; 0; 0; 1; 0; 0; 0; 1]) []
  = computeGreenLagrangeStrain [1; 2; 0; 0; 1; 0; 0; 0; 1] [].
Proof.
  refine (proj2 (GreenLagrange_objective [0; -1; 0; 1; 0; 0; 0; 0; 1]
                   [1; 2; 0; 0; 1; 0; 0; 0; 1] [] [] eq_refl eq_refl _)).
  run_all. by_entries; lra.
Defined.

Lemma Eigen_determinant_gram (F : list R) :
  length F = 9%nat ->
  Eigen.determinant (Eigen.product (Eigen_transpose F) F)
  = Eigen.determinant F * Eigen.determinant F.
Proof. intros HF. explode F HF. run_all. ring. Qed.

Lemma twoE_plus_I_GreenLagrange (F : list R) :
  length F = 9%nat ->
  twoE_plus_I (vectorTools.scale (1 / 2)
                 (vsub (Eigen.product (Eigen_transpose F) F) eye3))
  = Eigen.product (Eigen_transpose F) F.
Proof. intros HF. explode F HF. run_all. by_entries; field. Qed.

(** X4: the volumetric part of the Green-Lagrange strain of [F] is
    [|det F|]: decomposing the strain computed from [F] succeeds with
    [J = |det F|] when [F] is invertible and fails with a DomainError when
    [det F = 0]. *)
Theorem decompose_of_GreenLagrange (F E0 Ebar0 : list R) (J0 : R) :
  length F = 9%nat ->
  let E := (computeGreenLagrangeStrain F E0).2 in
  (Eigen.determinant F <> 0 ->
   exists Ebar,
     decomposeGreenLagrangeStrain E Ebar0 J0
     = (None, (Ebar, Rabs (Eigen.determinant F))))
  /\ (Eigen.determinant F = 0 ->
      exists e,
        decomposeGreenLagrangeStrain E Ebar0 J0 = (Some e, (Ebar0, J0))
        /\ kind e = DomainError).
Proof.
  intros HF E. unfold E. rewrite (computeGreenLagrangeStrain_value F E0 HF).
  cbn [snd].
  set (E1 := vectorTools.scale (1 / 2) _).
  assert (HE1 : length E1 = 9%nat) by reflexivity.
  assert (Hdet : Eigen.determinant (twoE_plus_I E1)
                 = Eigen.determinant F * Eigen.determinant F).
  { unfold E1. rewrite (twoE_plus_I_GreenLagrange F HF).
    apply Eigen_determinant_gram. assumption. }
  split.
  - intros Hne. eexists. rewrite decompose_success; [|assumption|].
    + rewrite Hdet. fold (Rsqr (Eigen.determinant F)). rewrite sqrt_Rsqr_abs.
      reflexivity.
    + rewrite Hdet. nra.
  - intros Hz. eexists. rewrite decompose_failure; [|assumption|].
    + split; reflexivity.
    + rewrite Hdet, Hz. lra.
Qed.

Lemma decompose_of_GreenLagrange_example :
  exists Ebar,
    decomposeGreenLagrangeStrain
      (computeGreenLagrangeStrain [2; 0; 0; 0; 1; 0; 0; 0; -1] []).2 [] 0
    = (None, (Ebar, Rabs (Eigen.determinant [2; 0; 0; 0; 1; 0; 0; 0; -1]))).
Proof.
  apply (proj1 (decompose_of_GreenLagrange [2; 0; 0; 0; 1; 0; 0; 0; -1] [] [] 0
                  eq_refl)).
  run_all. lra.
Defined.

(** ** The Jacobian of the Green-Lagrange strain *)

(** X5: the Jacobian of [computeDGreenLagrangeStrainDF] is the exact linear
    part of the strain: [E(F + H) = E(F) + dEdF(F) : H + 1/2 H^T H] for every
    [F] and [H] of nine values. *)
Theorem computeDGreenLagrangeStrainDF_exact (F H E0 dEdF0 : list R) :
  length F = 9%nat -> length H = 9%nat ->
  exists dEdF,
    computeDGreenLagrangeStrainDF F dEdF0 = (None, dEdF)
    /\ length dEdF = 81%nat
    /\ forall I J, (I < 3)%nat -> (J < 3)%nat ->
         (computeGreenLagrangeStrain (vectorTools.add F H) E0).2 !!! (3 * I + J)%nat
         = (computeGreenLagrangeStrain F E0).2 !!! (3 * I + J)%nat
           + sumR 3 (fun k => sumR 3 (fun K =>
               dEdF !!! (27 * I + 9 * J + 3 * k + K)%nat * H !!! (3 * k + K)%nat))
           + 1 / 2 * sumR 3 (fun i => H !!! (3 * i + I)%nat * H !!! (3 * i + J)%nat).
Proof.
  intros HF HH.
  assert (HFH : length (vectorTools.add F H) = 9%nat).
  { unfold vectorTools.add. rewrite length_zip_with, HF, HH. reflexivity. }
  rewrite (computeGreenLagrangeStrain_value _ E0 HFH),
    (computeGreenLagrangeStrain_value F E0 HF).
  unfold computeDGreenLagrangeStrainDF. rewrite HF. cbn [Nat.eqb negb].
  eexists. split; [reflexivity|].
  explode F HF. explode H HH.
  split; [reflexivity|].
  intros I J HI HJ.
  destruct I as [|[|[|I]]]; [| | |lia];
    (destruct J as [|[|[|J]]]; [| | |lia]); run_all; rewrite half_eq; field.
Qed.

Lemma computeDGreenLagrangeStrainDF_exact_example :
  exists dEdF,
    computeDGreenLagrangeStrainDF [1; 2; 0; 0; 1; 0; 0; 0; 1] [] = (None, dEdF)
    /\ length dEdF = 81%nat.
Proof.
  destruct (computeDGreenLagrangeStrainDF_exact
              [1; 2; 0; 0; 1; 0; 0; 0; 1] (replicate 9 1) [] [] eq_refl eq_refl)
    as (dEdF & H1 & H2 & _).
  exists dEdF. split; assumption.
Defined.

(** ** computeDeformationGradient *)

Lemma sqrt_not_square (n : nat) :
  (forall d, n <> (d * d)%nat) -> (n =? Nat.sqrt n * Nat.sqrt n)%nat = false.
Proof.
  intros H. apply Nat.eqb_neq. apply H.
Qed.

Lemma std_copy_all (src : list R) (n : nat) :
  length src = n -> std_copy src (replicate n 0) = src.
Proof.
  intros H. unfold std_copy. rewrite drop_ge, app_nil_r; [reflexivity|].
  rewrite length_replicate. lia.
Qed.

(** The loop [F[ dim * i + i ] += 1] adds the identity. *)
Lemma add_identity_loop (dim : nat) (v : list R) :
  length v = (dim * dim)%nat ->
  length (for_loop dim (fun i => add_at (dim * i + i) 1) v) = (dim * dim)%nat
  /\ forall i j, (i < dim)%nat -> (j < dim)%nat ->
       for_loop dim (fun i => add_at (dim * i + i) 1) v !!! (dim * i + j)%nat
       = v !!! (dim * i + j)%nat + deltaDirac i j.
Proof.
  intros Hv.
  destruct (adds_for_loop (dim * dim) dim (fun i => add_at (dim * i + i) 1)
              (fun i k => if decide (k = dim * i + i)%nat then 1 else 0)) with (v := v)
    as [Hl Hk]; [|exact Hv|].
  { intros i Hi. apply adds_add_at. nia. }
  split; [exact Hl|]. intros i j Hi Hj. rewrite Hk. f_equal.
  rewrite (sumR_ext dim _ (fun i' => if decide (i' = i) then deltaDirac i j else 0)).
  { apply sumR_single. assumption. }
  intros i' Hi'. unfold deltaDirac.
  destruct (decide (dim * i + j = dim * i' + i')%nat) as [He|Hne].
  - rewrite !(Nat.mul_comm dim) in He.
    destruct (proj1 (flat_index_unique dim i' i' i j Hi' Hj) He) as [-> ->].
    rewrite decide_True, Nat.eqb_refl by reflexivity. reflexivity.
  - destruct (decide (i' = i)) as [->|]; [|reflexivity].
    destruct (Nat.eqb_spec i j) as [->|]; [|reflexivity].
    exfalso. apply Hne. reflexivity.
Qed.

Lemma computeDeformationGradient_reference_entries
    (gradU F0 : list R) (dim : nat) :
  length gradU = (dim * dim)%nat ->
  exists F,
    computeDeformationGradient gradU F0 false = (None, F)
    /\ length F = (dim * dim)%nat
    /\ forall i j, (i < dim)%nat -> (j < dim)%nat ->
         F !!! (dim * i + j)%nat
         = gradU !!! (dim * i + j)%nat + deltaDirac i j.
Proof.
  intros Hd. unfold computeDeformationGradient. cbv zeta.
  rewrite Hd, Nat.sqrt_square, Nat.eqb_refl. cbn [negb].
  rewrite (std_copy_all gradU _ Hd).
  destruct (add_identity_loop dim gradU Hd) as [Hl Hk].
  eexists. split; [reflexivity|]. split; assumption.
Qed.

(** X6: [computeDeformationGradient] fails with a ShapeError, leaving [F]
    untouched, when the number of values is not a perfect square; for
    [dim * dim] values (the empty gradient included) and the reference
    convention it returns [F_ij = gradU_ij + delta_ij]. *)
Theorem computeDeformationGradient_reference
    (gradU F0 : list R) (isCurrent : bool) :
  ((forall d, length gradU <> (d * d)%nat) ->
   exists e, computeDeformationGradient gradU F0 isCurrent = (Some e, F0)
             /\ kind e = ShapeError)
  /\ (forall dim, length gradU = (dim * dim)%nat ->
      exists F,
        computeDeformationGradient gradU F0 false = (None, F)
        /\ length F = (dim * dim)%nat
        /\ forall i j, (i < dim)%nat -> (j < dim)%nat ->
             F !!! (dim * i + j)%nat
             = gradU !!! (dim * i + j)%nat + deltaDirac i j).
Proof.
  split.
  - intros H. unfold computeDeformationGradient. cbv zeta.
    rewrite (sqrt_not_square _ H). cbn [negb]. eexists. split; reflexivity.
  - intros dim Hd. apply computeDeformationGradient_reference_entries.
    exact Hd.
Qed.

Lemma computeDeformationGradient_reference_example :
  exists F,
    computeDeformationGradient [1; 2; 3; 4] [] false = (None, F)
    /\ length F = 4%nat.
Proof.
  destruct (computeDeformationGradient_reference [1; 2; 3; 4] [] false) as [_ H].
  destruct (H 2%nat eq_refl) as (F & HF & Hl & _).
  exists F. split; assumption.
Defined.

Lemma computeDeformationGradient_current_value (gradU F0 : list R) :
  length gradU = 9%nat ->
  computeDeformationGradient gradU F0 true
  = (None, Eigen.inverse (vsub eye3 gradU)).
Proof.
  intros HU. unfold computeDeformationGradient. cbv zeta. rewrite HU.
  replace (Nat.sqrt 9) with 3%nat by reflexivity.
  cbn [Nat.mul Nat.add Nat.eqb negb]. rewrite (std_copy_all gradU 9 HU).
  unfold Eigen_dynamic_inverse.
  assert (Hl : for_loop 3 (fun i => add_at (i + (i + (i + 0)) + i) 1) (map Ropp gradU)
               = vsub eye3 gradU).
  { explode gradU HU. run_all. by_entries; ring. }
  rewrite Hl. rewrite vectorTools_inverse_3; [reflexivity|].
  explode gradU HU. reflexivity.
Qed.

(** X7: with the current convention and nine values the returned [F] is
    the two-sided inverse of [I - gradU], whenever that matrix is
    invertible. *)
Theorem computeDeformationGradient_current (gradU F0 : list R) :
  length gradU = 9%nat ->
  Eigen.determinant (vsub eye3 gradU) <> 0 ->
  exists F,
    computeDeformationGradient gradU F0 true = (None, F)
    /\ Eigen.product (vsub eye3 gradU) F = eye3
    /\ Eigen.product F (vsub eye3 gradU) = eye3.
Proof.
  intros HU Hdet. rewrite (computeDeformationGradient_current_value gradU F0 HU).
  assert (HM : length (vsub eye3 gradU) = 9%nat).
  { clear Hdet. explode gradU HU. reflexivity. }
  eexists. split; [reflexivity|]. split.
  - apply Eigen_inverse_r; assumption.
  - apply Eigen_inverse_l; assumption.
Qed.

Lemma computeDeformationGradient_current_example :
  exists F,
    computeDeformationGradient [0; 1; 0; 0; 0; 0; 0; 0; 0] [] true = (None, F)
    /\ Eigen.product (vsub eye3 [0; 1; 0; 0; 0; 0; 0; 0; 0]) F = eye3.
Proof.
  destruct (computeDeformationGradient_current [0; 1; 0; 0; 0; 0; 0; 0; 0] []
              eq_refl) as (F & HF & H1 & _).
  - run_all. lra.
  - exists F. split; assumption.
Defined.

Lemma Eigen_inverse_involutive (F : list R) :
  length F = 9%nat -> Eigen.determinant F <> 0 ->
  Eigen.inverse (Eigen.inverse F) = F.
Proof.
  intros HF Hdet. explode F HF. revert Hdet. run_all. intros Hd.
  by_entries; field; (split; [exact Hd|]);
    match type of Hd with
    | ?D <> 0 =>
        match goal with
        | |- ?P <> 0 =>
            replace P with (D * D) by ring;
            apply Rmult_integral_contrapositive_currified; exact Hd
        end
    end.
Qed.

(** X8: both conventions recover an invertible [F] from its displacement
    gradient: [F - I] with the reference convention and [I - F^-1] with the
    current one. *)
Theorem computeDeformationGradient_roundtrip (F F0 : list R) :
  length F = 9%nat -> Eigen.determinant F <> 0 ->
  computeDeformationGradient (vsub F eye3) F0 false = (None, F)
  /\ computeDeformationGradient (vsub eye3 (Eigen.inverse F)) F0 true = (None, F).
Proof.
  intros HF Hdet. split.
  - unfold computeDeformationGradient. cbv zeta.
    assert (HU : length (vsub F eye3) = 9%nat).
    { clear Hdet. explode F HF. reflexivity. }
    rewrite HU. replace (Nat.sqrt 9) with 3%nat by reflexivity.
    cbn [Nat.mul Nat.add Nat.eqb negb]. rewrite (std_copy_all _ 9 HU).
    clear HU Hdet. explode F HF. run_all. f_equal. by_entries; ring.
  - rewrite computeDeformationGradient_current_value by reflexivity.
    f_equal.
    replace (vsub eye3 (vsub eye3 (Eigen.inverse F))) with (Eigen.inverse F).
    + apply Eigen_inverse_involutive; assumption.
    + clear Hdet. explode F HF. run_all. by_entries; ring.
Qed.

Lemma computeDeformationGradient_roundtrip_example :
  computeDeformationGradient (vsub [2; 1; 0; 0; 1; 0; 0; 0; 1] eye3) [] false
  = (None, [2; 1; 0; 0; 1; 0; 0; 0; 1]).
Proof.
  refine (proj1 (computeDeformationGradient_roundtrip
                   [2; 1; 0; 0; 1; 0; 0; 0; 1] [] eq_refl _)).
  run_all. lra.
Defined.

(** X9: the strain of the deformation gradient built from a reference
    displacement gradient is
    [1/2 (gradU + gradU^T + gradU^T gradU)]. *)
Theorem GreenLagrange_of_displacementGradient (gradU F0 E0 : list R) :
  length gradU = 9%nat ->
  exists F,
    computeDeformationGradient gradU F0 false = (None, F)
    /\ computeGreenLagrangeStrain F E0
       = (None,
          vectorTools.scale (1 / 2)
            (vectorTools.add (vectorTools.add gradU (Eigen_transpose gradU))
               (Eigen.product (Eigen_transpose gradU) gradU))).
Proof.
  intros HU.
  destruct (computeDeformationGradient_reference_entries gradU F0 3 HU)
    as (F & HF & Hl & _).
  exists F. split; [exact HF|].
  rewrite (computeGreenLagrangeStrain_value F E0 Hl).
  revert HF. unfold computeDeformationGradient. cbv zeta. rewrite HU.
  replace (Nat.sqrt 9) with 3%nat by reflexivity.
  cbn [Nat.mul Nat.add Nat.eqb negb]. rewrite (std_copy_all gradU 9 HU).
  intros HF. injection HF as <-. clear Hl.
  explode gradU HU. run_all. f_equal. by_entries; field.
Qed.

Lemma GreenLagrange_of_displacementGradient_example :
  exists F,
    computeDeformationGradient [0; 1; 0; 0; 0; 0; 0; 0; 0] [] false = (None, F)
    /\ computeGreenLagrangeStrain F []
       = (None,
          vectorTools.scale (1 / 2)
            (vectorTools.add
               (vectorTools.add [0; 1; 0; 0; 0; 0; 0; 0; 0]
                  (Eigen_transpose [0; 1; 0; 0; 0; 0; 0; 0; 0]))
               (Eigen.product (Eigen_transpose [0; 1; 0; 0; 0; 0; 0; 0; 0])
                  [0; 1; 0; 0; 0; 0; 0; 0; 0]))).
Proof.
  exact (GreenLagrange_of_displacementGradient
           [0; 1; 0; 0; 0; 0; 0; 0; 0] [] [] eq_refl).
Defined.

(** ** computeDFDt and pullBackVelocityGradient *)

Lemma computeDFDt_value (L F D0 : list R) :
  length L = 9%nat -> length F = 9%nat ->
  computeDFDt L F D0 = (None, Eigen.product L F).
Proof.
  intros HL HF. unfold computeDFDt. cbv zeta. change (3 * 3)%nat with 9%nat.
  rewrite HL, HF. cbn [Nat.eqb negb].
  explode L HL. explode F HF. run_all. reflexivity.
Qed.

(** X10: [computeDFDt] fails with a ShapeError, leaving its output
    untouched, unless both inputs have nine values; otherwise it returns
    [DFDt_iI = sum_j L_ij F_jI]. *)
Theorem computeDFDt_shape (L F D0 : list R) :
  ((length L <> 9%nat \/ length F <> 9%nat) ->
   exists e, computeDFDt L F D0 = (Some e, D0) /\ kind e = ShapeError)
  /\ (length L = 9%nat -> length F = 9%nat ->
      exists D,
        computeDFDt L F D0 = (None, D) /\ length D = 9%nat
        /\ forall i I, (i < 3)%nat -> (I < 3)%nat ->
             D !!! (3 * i + I)%nat
             = sumR 3 (fun j => L !!! (3 * i + j)%nat * F !!! (3 * j + I)%nat)).
Proof.
  split.
  - intros H. unfold computeDFDt. cbv zeta. change (3 * 3)%nat with 9%nat.
    destruct (Nat.eqb_spec (length L) (length F)) as [E1|N1]; cbn [negb];
      [|eexists; split; reflexivity].
    destruct (Nat.eqb_spec (length L) 9) as [E2|N2]; cbn [negb];
      [|eexists; split; reflexivity].
    exfalso. destruct H as [H|H]; congruence.
  - intros HL HF. rewrite (computeDFDt_value L F D0 HL HF).
    eexists. split; [reflexivity|]. split; [reflexivity|].
    intros i I Hi HI. explode L HL. explode F HF.
    destruct i as [|[|[|i]]]; [| | |lia];
      (destruct I as [|[|[|I]]]; [| | |lia]); run_all; ring.
Qed.

Lemma computeDFDt_shape_example :
  exists D, computeDFDt eye3 eye3 [] = (None, D) /\ length D = 9%nat.
Proof.
  destruct (computeDFDt_shape eye3 eye3 []) as [_ H].
  destruct (H eq_refl eq_refl) as (D & HD & Hl & _).
  exists D. split; assumption.
Defined.

(** X11: the two Jacobians of [computeDFDt] are exact: perturbing [L] by
    [dL] changes the result by [dDFDtdL : dL], and perturbing [F] by [dF]
    changes it by [dDFDtdF : dF]. *)
Theorem computeDFDt_jacobians_exact (L F dL dF D0 JL0 JF0 : list R) :
  length L = 9%nat -> length F = 9%nat ->
  length dL = 9%nat -> length dF = 9%nat ->
  exists D JL JF,
    computeDFDt_jacobians L F D0 JL0 JF0 = (None, (D, JL, JF))
    /\ length JL = 81%nat /\ length JF = 81%nat
    /\ (forall i I, (i < 3)%nat -> (I < 3)%nat ->
          (computeDFDt (vectorTools.add L dL) F D0).2 !!! (3 * i + I)%nat
          = D !!! (3 * i + I)%nat
            + sumR 3 (fun k => sumR 3 (fun l =>
                JL !!! (27 * i + 9 * I + 3 * k + l)%nat * dL !!! (3 * k + l)%nat)))
    /\ (forall i I, (i < 3)%nat -> (I < 3)%nat ->
          (computeDFDt L (vectorTools.add F dF) D0).2 !!! (3 * i + I)%nat
          = D !!! (3 * i + I)%nat
            + sumR 3 (fun k => sumR 3 (fun K =>
                JF !!! (27 * i + 9 * I + 3 * k + K)%nat * dF !!! (3 * k + K)%nat))).
Proof.
  intros HL HF HdL HdF.
  assert (HLd : length (vectorTools.add L dL) = 9%nat).
  { unfold vectorTools.add. rewrite length_zip_with, HL, HdL. reflexivity. }
  assert (HFd : length (vectorTools.add F dF) = 9%nat).
  { unfold vectorTools.add. rewrite length_zip_with, HF, HdF. reflexivity. }
  unfold computeDFDt_jacobians. cbv zeta.
  rewrite (computeDFDt_value L F D0 HL HF),
    (computeDFDt_value _ F D0 HLd HF), (computeDFDt_value L _ D0 HL HFd).
  explode L HL. explode F HF. explode dL HdL. explode dF HdF.
  eexists _, _, _. split; [reflexivity|].
  split; [reflexivity|]. split; [reflexivity|]. split.
  - intros i I Hi HI.
    destruct i as [|[|[|i]]]; [| | |lia];
      (destruct I as [|[|[|I]]]; [| | |lia]); run_all; ring.
  - intros i I Hi HI.
    destruct i as [|[|[|i]]]; [| | |lia];
      (destruct I as [|[|[|I]]]; [| | |lia]); run_all; ring.
Qed.

Lemma computeDFDt_jacobians_exact_example :
  exists D JL JF,
    computeDFDt_jacobians eye3 eye3 [] [] [] = (None, (D, JL, JF))
    /\ length JL = 81%nat /\ length JF = 81%nat.
Proof.
  destruct (computeDFDt_jacobians_exact eye3 eye3 eye3 eye3 [] [] []
              eq_refl eq_refl eq_refl eq_refl)
    as (D & JL & JF & H & H1 & H2 & _).
  exists D, JL, JF. repeat split; assumption.
Defined.

Lemma pullBackVelocityGradient_value (L F P0 : list R) :
  length F = 9%nat ->
  pullBackVelocityGradient L F P0
  = (None,
     vectorTools.matrixMultiply
       (vectorTools.matrixMultiply (Eigen.inverse F) L 3 3 3 3 false false)
       F 3 3 3 3 false false).
Proof.
  intros HF. unfold pullBackVelocityGradient. cbv zeta.
  rewrite (vectorTools_inverse_3 F HF). reflexivity.
Qed.

(** X12: for an invertible [F] the pulled back velocity gradient [Lbar]
    satisfies [F Lbar = L F], the rate [computeDFDt] returns, and has the
    trace of [L]. *)
Theorem computeDFDt_of_pullBack (L F P0 D0 : list R) :
  length L = 9%nat -> length F = 9%nat -> Eigen.determinant F <> 0 ->
  exists Lbar,
    pullBackVelocityGradient L F P0 = (None, Lbar)
    /\ computeDFDt L F D0 = (None, Eigen.product F Lbar)
    /\ trace3 Lbar = trace3 L.
Proof.
  intros HL HF Hdet. rewrite (pullBackVelocityGradient_value L F P0 HF),
    (computeDFDt_value L F D0 HL HF).
  eexists. split; [reflexivity|].
  explode L HL. explode F HF. revert Hdet. run_all. intros Hd. split.
  - f_equal. by_entries; field; exact Hd.
  - unfold trace3. run_all. field; exact Hd.
Qed.

Lemma computeDFDt_of_pullBack_example :
  exists Lbar,
    pullBackVelocityGradient [1; 2; 3; 4; 5; 6; 7; 8; 9]
      [2; 1; 0; 0; 1; 0; 0; 0; 1] [] = (None, Lbar)
    /\ trace3 Lbar = trace3 [1; 2; 3; 4; 5; 6; 7; 8; 9].
Proof.
  destruct (computeDFDt_of_pullBack [1; 2; 3; 4; 5; 6; 7; 8; 9]
              [2; 1; 0; 0; 1; 0; 0; 0; 1] [] [] eq_refl eq_refl)
    as (Lbar & H1 & _ & H3).
  - run_all. lra.
  - exists Lbar. split; assumption.
Defined.

(** ** Stress push-forward and pull-back *)

Lemma pushForwardPK2Stress_value (S F c0 : list R) :
  length S = 9%nat -> length F = 9%nat ->
  pushForwardPK2Stress S F c0
  = (None,
     vectorTools.divide
       (vectorTools.matrixMultiply
          (vectorTools.matrixMultiply F S 3 3 3 3 false false)
          F 3 3 3 3 false true)
       (Eigen.determinant F)).
Proof.
  intros HS HF. unfold pushForwardPK2Stress. cbv zeta. rewrite HS, HF.
  replace (round_sqrt 9) with 3%nat by reflexivity. cbn [Nat.mul Nat.add Nat.eqb negb].
  rewrite (vectorTools_determinant_3 F HF). reflexivity.
Qed.

Lemma pullBackCauchyStress_value (c F P0 : list R) :
  length c = 9%nat -> length F = 9%nat ->
  pullBackCauchyStress c F P0
  = (None,
     vectorTools.scale (Eigen.determinant F)
       (vectorTools.matrixMultiply
          (vectorTools.matrixMultiply (Eigen.inverse F) c 3 3 3 3 false false)
          (Eigen.inverse F) 3 3 3 3 false true)).
Proof.
  intros Hc HF. unfold pullBackCauchyStress. cbv zeta. rewrite Hc, HF.
  replace (round_sqrt 9) with 3%nat by reflexivity. cbn [Nat.mul Nat.add Nat.eqb negb].
  rewrite (vectorTools_determinant_3 F HF), (vectorTools_inverse_3 F HF).
  reflexivity.
Qed.

(** X13: for an invertible [F] of nine values, pulling back the pushed
    forward PK2 stress returns the stress, and pushing forward the pulled
    back Cauchy stress returns the stress. *)
Theorem PK2_Cauchy_roundtrip (S F c0 P0 : list R) :
  length S = 9%nat -> length F = 9%nat -> Eigen.determinant F <> 0 ->
  (exists c, pushForwardPK2Stress S F c0 = (None, c)
             /\ pullBackCauchyStress c F P0 = (None, S))
  /\ (exists P, pullBackCauchyStress S F P0 = (None, P)
                /\ pushForwardPK2Stress P F c0 = (None, S)).
Proof.
  intros HS HF Hdet. split.
  - eexists. split; [apply pushForwardPK2Stress_value; assumption|].
    rewrite pullBackCauchyStress_value; [|reflexivity|assumption].
    f_equal. explode S HS. explode F HF. revert Hdet. run_all. intros Hd.
    by_entries; field; exact Hd.
  - eexists. split; [apply pullBackCauchyStress_value; assumption|].
    rewrite pushForwardPK2Stress_value; [|reflexivity|assumption].
    f_equal. explode S HS. explode F HF. revert Hdet. run_all. intros Hd.
    by_entries; field; exact Hd.
Qed.

Lemma PK2_Cauchy_roundtrip_example :
  exists c,
    pushForwardPK2Stress [1; 2; 3; 4; 5; 6; 7; 8; 9]
      [2; 1; 0; 0; 1; 0; 0; 0; 1] [] = (None, c)
    /\ pullBackCauchyStress c [2; 1; 0; 0; 1; 0; 0; 0; 1] []
       = (None, [1; 2; 3; 4; 5; 6; 7; 8; 9]).
Proof.
  refine (proj1 (PK2_Cauchy_roundtrip [1; 2; 3; 4; 5; 6; 7; 8; 9]
                   [2; 1; 0; 0; 1; 0; 0; 0; 1] [] [] eq_refl eq_refl _)).
  run_all. lra.
Defined.

(** X14: on inputs of nine values with an invertible [F] the two
    implementations of the push-forward, [mapPK2toCauchy] and
    [pushForwardPK2Stress], return the same result. *)
Theorem mapPK2toCauchy_agrees (S F c0 : list R) :
  length S = 9%nat -> length F = 9%nat -> Eigen.determinant F <> 0 ->
  mapPK2toCauchy S F c0 = pushForwardPK2Stress S F c0.
Proof.
  intros HS HF Hdet. rewrite (pushForwardPK2Stress_value S F c0 HS HF).
  unfold mapPK2toCauchy. cbv zeta. change (3 * 3)%nat with 9%nat.
  rewrite HS, HF. cbn [Nat.eqb negb].
  explode S HS. explode F HF. revert Hdet. run_all. intros Hd.
  f_equal. by_entries; field; exact Hd.
Qed.

Lemma mapPK2toCauchy_agrees_example :
  mapPK2toCauchy [1; 2; 3; 4; 5; 6; 7; 8; 9] [2; 1; 0; 0; 1; 0; 0; 0; 1] []
  = pushForwardPK2Stress [1; 2; 3; 4; 5; 6; 7; 8; 9]
      [2; 1; 0; 0; 1; 0; 0; 0; 1] [].
Proof.
  apply mapPK2toCauchy_agrees; [reflexivity|reflexivity|].
  run_all. lra.
Defined.

(** X15: the push-forward of a symmetric PK2 stress is a symmetric Cauchy
    stress. *)
Theorem pushForwardPK2Stress_symmetric (S F c0 : list R) :
  length S = 9%nat -> length F = 9%nat -> Eigen_transpose S = S ->
  exists c,
    pushForwardPK2Stress S F c0 = (None, c) /\ Eigen_transpose c = c.
Proof.
  intros HS HF Hsym. eexists.
  split; [apply pushForwardPK2Stress_value; assumption|].
  explode S HS. explode F HF. revert Hsym. run_all. intros Hsym.
  injection Hsym as H1 H2 H3 H4 H5 H6. subst.
  by_entries; unfold Rdiv; f_equal; ring.
Qed.

Lemma pushForwardPK2Stress_symmetric_example :
  exists c,
    pushForwardPK2Stress [1; 2; 3; 2; 5; 6; 3; 6; 9]
      [2; 1; 0; 0; 1; 0; 0; 0; 1] [] = (None, c)
    /\ Eigen_transpose c = c.
Proof.
  apply pushForwardPK2Stress_symmetric; reflexivity.
Defined.

(** X16: [pullBackCauchyStress] fails with a ShapeError, leaving its
    output untouched, when the sizes differ or the length of the stress is
    not a perfect square, and succeeds on every pair of one perfect-square
    length [d * d], returning [d * d] values. *)
Theorem pullBackCauchyStress_shape (c F P0 : list R) :
  (((forall d, length c <> (d * d)%nat) \/ length F <> length c) ->
   exists e, pullBackCauchyStress c F P0 = (Some e, P0) /\ kind e = ShapeError)
  /\ (forall d, length c = (d * d)%nat -> length F = length c ->
      exists P, pullBackCauchyStress c F P0 = (None, P)
                /\ length P = (d * d)%nat).
Proof.
  split.
  - intros H. unfold pullBackCauchyStress. cbv zeta.
    destruct (Nat.eqb_spec (length c)
                (round_sqrt (length c) * round_sqrt (length c))) as [E1|N1];
      cbn [negb]; [|eexists; split; reflexivity].
    destruct (Nat.eqb_spec (length c) (length F)) as [E2|N2]; cbn [negb];
      [|eexists; split; reflexivity].
    exfalso. destruct H as [H|H]; [|congruence].
    exact (H _ E1).
  - intros d Hc HF. unfold pullBackCauchyStress. cbv zeta.
    rewrite HF, Hc, round_sqrt_square, !Nat.eqb_refl. cbn [negb].
    eexists. split; [reflexivity|].
    unfold vectorTools.scale.
    rewrite length_map, vectorTools_matrixMultiply_length. reflexivity.
Qed.

Lemma pullBackCauchyStress_shape_example :
  exists P, pullBackCauchyStress [1; 2; 3; 4] [1; 0; 0; 1] [] = (None, P)
            /\ length P = 4%nat.
Proof.
  destruct (pullBackCauchyStress_shape [1; 2; 3; 4] [1; 0; 0; 1] []) as [_ H].
  exact (H 2%nat eq_refl eq_refl).
Defined.


(** ** mac *)

(** X17: [mac] is the Macaulay bracket: [x] for a positive [x] and [0]
    otherwise, that is [max x 0]; it is never negative and idempotent; the
    overload with the Jacobian returns the same value with the derivative
    [1] for [x >= 0] and [0] otherwise, and [mac x = x * dmacdx]. *)
Theorem mac_bracket (x d0 : R) :
  (0 < x -> mac x = x) /\ (x <= 0 -> mac x = 0)
  /\ mac x = Rmax x 0 /\ 0 <= mac x /\ mac (mac x) = mac x
  /\ (mac_jacobian x d0).1 = mac x
  /\ (mac_jacobian x d0).2 = (if bool_decide (0 <= x) then 1 else 0)
  /\ mac x = x * (mac_jacobian x d0).2.
Proof.
  assert (Hpos : forall y, 0 <= y -> mac y = y).
  { intros y Hy. unfold mac. rewrite Rabs_pos_eq by assumption. lra. }
  assert (Hneg : forall y, y <= 0 -> mac y = 0).
  { intros y Hy. unfold mac. rewrite Rabs_left1 by assumption. lra. }
  assert (Hnn : 0 <= mac x).
  { destruct (Rle_or_lt 0 x) as [H|H]; [rewrite Hpos; lra|rewrite Hneg; lra]. }
  split; [intros H; apply Hpos; lra|]. split; [exact (Hneg x)|].
  split.
  { destruct (Rle_or_lt 0 x) as [H|H].
    - rewrite Hpos, Rmax_left by assumption. reflexivity.
    - rewrite Hneg, Rmax_right by lra. reflexivity. }
  split; [exact Hnn|]. split; [apply Hpos; exact Hnn|].
  split; [reflexivity|]. split; [reflexivity|].
  unfold mac_jacobian. cbn [snd].
  destruct (Rle_or_lt 0 x) as [H|H].
  - rewrite bool_decide_true by assumption. rewrite Hpos by assumption. ring.
  - rewrite bool_decide_false by lra. rewrite Hneg by lra. ring.
Qed.

Lemma mac_bracket_example : mac 3 = 3 /\ mac (-2) = 0.
Proof.
  split.
  - apply (proj1 (mac_bracket 3 0)). lra.
  - apply (proj1 (proj2 (mac_bracket (-2) 0))). lra.
Defined.

(** ** quadraticThermalExpansion *)

Lemma quadraticThermalExpansion_entries (T T0 : R) (a b : list R) :
  length a = length b ->
  forall i,
    zip_with Rminus
      (zip_with Rminus
         (vectorTools.add (scale_r a T) (scale_r (scale_r b T) T))
         (scale_r a T0))
      (scale_r (scale_r b T0) T0) !!! i
    = a !!! i * (T - T0) + b !!! i * (T * T - T0 * T0).
Proof.
  revert b. induction a as [|x a IH]; intros [|y b] Hl i; try discriminate.
  - destruct i; cbn; ring.
  - destruct i as [|i].
    + cbn. ring.
    + cbn in Hl. injection Hl as Hl. exact (IH b Hl i).
Qed.

Lemma quadraticThermalExpansion_length (T T0 : R) (a b : list R) :
  length a = length b ->
  length (zip_with Rminus
      (zip_with Rminus
         (vectorTools.add (scale_r a T) (scale_r (scale_r b T) T))
         (scale_r a T0))
      (scale_r (scale_r b T0) T0)) = length a.
Proof.
  intros Hl. unfold vectorTools.add, scale_r.
  rewrite !length_zip_with, !length_map. lia.
Qed.

(** X18: [quadraticThermalExpansion] fails with a ShapeError, leaving its
    output untouched, when the two parameter vectors differ in length;
    otherwise entry [i] is [a_i (T - T0) + b_i (T^2 - T0^2)], and the
    expansion vanishes at the reference temperature. *)
Theorem quadraticThermalExpansion_formula (T T0 : R) (a b e0 : list R) :
  (length a <> length b ->
   exists err, quadraticThermalExpansion T T0 a b e0 = (Some err, e0)
               /\ kind err = ShapeError)
  /\ (length a = length b ->
      exists e,
        quadraticThermalExpansion T T0 a b e0 = (None, e)
        /\ length e = length a
        /\ (forall i, e !!! i = a !!! i * (T - T0) + b !!! i * (T * T - T0 * T0))
        /\ (T = T0 -> e = replicate (length a) 0)).
Proof.
  unfold quadraticThermalExpansion. split.
  - intros H. destruct (Nat.eqb_spec (length a) (length b)) as [|_];
      [contradiction|]. eexists. split; reflexivity.
  - intros H. destruct (Nat.eqb_spec (length a) (length b)) as [_|N];
      [|contradiction]. cbn [negb].
    eexists. split; [reflexivity|].
    split; [apply quadraticThermalExpansion_length; exact H|].
    split; [apply quadraticThermalExpansion_entries; exact H|].
    intros ->. apply (list_eq_same_length _ _ (length a)).
    + apply length_replicate.
    + apply quadraticThermalExpansion_length; exact H.
    + intros i x y Hi Hx Hy.
      apply list_lookup_total_correct in Hx, Hy.
      rewrite quadraticThermalExpansion_entries in Hx by exact H.
      rewrite lookup_total_replicate_2 in Hy by exact Hi. subst. ring.
Qed.

Lemma quadraticThermalExpansion_formula_example :
  exists e,
    quadraticThermalExpansion 2 1 [1; 2] [3; 4] [] = (None, e)
    /\ e !!! 0%nat = 1 * (2 - 1) + 3 * (2 * 2 - 1 * 1).
Proof.
  destruct (quadraticThermalExpansion_formula 2 1 [1; 2] [3; 4] []) as [_ H].
  destruct (H eq_refl) as (e & He & _ & Hi & _).
  exists e. split; [exact He | exact (Hi 0%nat)].
Defined.

(** X19: the temperature derivative returned with the thermal expansion
    is exact: [e(T + h) = e(T) + h J(T) + h^2 b] entry by entry. *)
Theorem quadraticThermalExpansion_jacobian_exact
    (T T0 h : R) (a b e0 J0 : list R) :
  length a = length b ->
  exists e J,
    quadraticThermalExpansion_jacobian T T0 a b e0 J0 = (None, (e, J))
    /\ length J = length a
    /\ forall i,
         (quadraticThermalExpansion (T + h) T0 a b e0).2 !!! i
         = e !!! i + h * J !!! i + h * h * b !!! i.
Proof.
  intros H. unfold quadraticThermalExpansion_jacobian, quadraticThermalExpansion.
  destruct (Nat.eqb_spec (length a) (length b)) as [_|N]; [|contradiction].
  cbn [negb snd].
  eexists _, _. split; [reflexivity|]. split.
  - unfold vectorTools.add, scale_r, vectorTools.scale.
    rewrite length_zip_with, !length_map. lia.
  - intros i. rewrite !quadraticThermalExpansion_entries by exact H.
    assert (HJ : forall a b : list R, length a = length b -> forall i,
              vectorTools.add a (scale_r (vectorTools.scale 2 b) T) !!! i
              = a !!! i + 2 * b !!! i * T).
    { clear. induction a as [|x a IH]; intros [|y b] Hl i; try discriminate.
      - destruct i; cbn; ring.
      - destruct i as [|i]; [cbn; ring|].
        cbn in Hl. injection Hl as Hl. exact (IH b Hl i). }
    rewrite (HJ a b H i). ring.
Qed.

Lemma quadraticThermalExpansion_jacobian_exact_example :
  exists e J,
    quadraticThermalExpansion_jacobian 2 1 [1; 2] [3; 4] [] [] = (None, (e, J))
    /\ length J = 2%nat.
Proof.
  destruct (quadraticThermalExpansion_jacobian_exact 2 1 1 [1; 2] [3; 4] [] []
              eq_refl) as (e & J & H1 & H2 & _).
  exists e, J. split; assumption.
Defined.

(** ** computeSymmetricPart *)

Lemma for_loop_S {S : Type} (n : nat) (body : nat -> S -> S) (s : S) :
  for_loop (Datatypes.S n) body s = body n (for_loop n body s).
Proof.
  unfold for_loop. rewrite seq_S, fold_left_app. reflexivity.
Qed.

(** A loop of assignments [v[ base + j ] = g j] over [j < m]. *)
Lemma assign_row (base m : nat) (g : nat -> R) (v : list R) :
  (base + m <= length v)%nat ->
  length (for_loop m (fun j v => <[(base + j)%nat := g j]> v) v) = length v
  /\ forall k,
       for_loop m (fun j v => <[(base + j)%nat := g j]> v) v !!! k
       = if decide (base <= k < base + m)%nat then g (k - base)%nat else v !!! k.
Proof.
  induction m as [|m IH]; intros Hm.
  - split; [reflexivity|]. intros k. rewrite decide_False by lia. reflexivity.
  - destruct IH as [Hl Hk]; [lia|]. rewrite for_loop_S.
    split; [rewrite length_insert; exact Hl|]. intros k.
    destruct (decide (k = base + m)%nat) as [->|Hne].
    + rewrite list_lookup_total_insert_eq by lia.
      rewrite decide_True by lia. f_equal. lia.
    + rewrite list_lookup_total_insert_ne by congruence. rewrite Hk.
      destruct (decide (base <= k < base + m)%nat).
      * rewrite decide_True by lia. reflexivity.
      * rewrite decide_False by lia. reflexivity.
Qed.

(** The nested loops of assignments [v[ dim * i + j ] = g i j]. *)
Lemma assign_grid (dim m : nat) (g : nat -> nat -> R) (v : list R) :
  (dim * m <= length v)%nat ->
  length (for_loop m (fun i =>
            for_loop dim (fun j v => <[(dim * i + j)%nat := g i j]> v)) v)
  = length v
  /\ forall i j, (i < m)%nat -> (j < dim)%nat ->
       for_loop m (fun i =>
         for_loop dim (fun j v => <[(dim * i + j)%nat := g i j]> v)) v
       !!! (dim * i + j)%nat = g i j.
Proof.
  induction m as [|m IH]; intros Hm.
  - split; [reflexivity|]. intros i j Hi. lia.
  - destruct IH as [Hl Hk]; [lia|]. rewrite for_loop_S.
    set (r := for_loop m _ v) in *.
    destruct (assign_row (dim * m) dim (g m) r) as [Hl' Hk']; [lia|].
    split; [rewrite Hl'; exact Hl|]. intros i j Hi Hj. rewrite Hk'.
    destruct (decide (i = m)) as [->|Hne].
    + rewrite decide_True by lia. f_equal. lia.
    + rewrite decide_False by nia. apply Hk; [lia|assumption].
Qed.

Lemma computeSymmetricPart_entries (A s0 : list R) (d0 dim : nat) :
  length A = (dim * dim)%nat ->
  exists s,
    computeSymmetricPart A s0 d0 = (None, (s, dim))
    /\ length s = (dim * dim)%nat
    /\ forall i j, (i < dim)%nat -> (j < dim)%nat ->
         s !!! (dim * i + j)%nat
         = 0.5 * (A !!! (dim * i + j)%nat + A !!! (dim * j + i)%nat).
Proof.
  intros HA. unfold computeSymmetricPart. cbv zeta.
  rewrite HA, round_sqrt_square, Nat.eqb_refl. cbn [negb].
  destruct (assign_grid dim dim
              (fun i j => 0.5 * (A !!! (dim * i + j)%nat + A !!! (dim * j + i)%nat))
              (replicate (dim * dim) 0)) as [Hl Hk].
  { rewrite length_replicate. lia. }
  eexists. split; [reflexivity|]. rewrite length_replicate in Hl.
  split; [exact Hl | exact Hk].
Qed.

(** X20: [computeSymmetricPart] fails with a ShapeError when the number of
    values is not a perfect square, having already overwritten the output
    [dim] with the rounded square root; for [dim * dim] values it returns
    [1/2 (A_ij + A_ji)], which is symmetric. *)
Theorem computeSymmetricPart_symmetric (A s0 : list R) (d0 : nat) :
  ((forall d, length A <> (d * d)%nat) ->
   exists e,
     computeSymmetricPart A s0 d0 = (Some e, (s0, round_sqrt (length A)))
     /\ kind e = ShapeError)
  /\ (forall dim, length A = (dim * dim)%nat ->
      exists s,
        computeSymmetricPart A s0 d0 = (None, (s, dim))
        /\ length s = length A
        /\ (forall i j, (i < dim)%nat -> (j < dim)%nat ->
              s !!! (dim * i + j)%nat
              = 1 / 2 * (A !!! (dim * i + j)%nat + A !!! (dim * j + i)%nat))
        /\ (forall i j, (i < dim)%nat -> (j < dim)%nat ->
              s !!! (dim * i + j)%nat = s !!! (dim * j + i)%nat)).
Proof.
  split.
  - intros H. unfold computeSymmetricPart. cbv zeta.
    destruct (Nat.eqb_spec (round_sqrt (length A) * round_sqrt (length A))
                (length A)) as [E|_]; cbn [negb].
    + exfalso. apply (H (round_sqrt (length A))). symmetry. exact E.
    + eexists. split; reflexivity.
  - intros dim HA.
    destruct (computeSymmetricPart_entries A s0 d0 dim HA) as (s & Hs & Hl & Hk).
    exists s. split; [exact Hs|]. split; [congruence|]. split.
    + intros i j Hi Hj. rewrite (Hk i j Hi Hj), half_eq. field.
    + intros i j Hi Hj. rewrite (Hk i j Hi Hj), (Hk j i Hj Hi). ring.
Qed.

Lemma computeSymmetricPart_symmetric_example :
  exists s,
    computeSymmetricPart [1; 2; 3; 4] [] 0 = (None, (s, 2%nat))
    /\ s !!! 1%nat = s !!! 2%nat.
Proof.
  destruct (computeSymmetricPart_symmetric [1; 2; 3; 4] [] 0) as [_ H].
  destruct (H 2%nat eq_refl) as (s & Hs & _ & _ & Hsym).
  exists s. split; [exact Hs|].
  exact (Hsym 0%nat 1%nat ltac:(lia) ltac:(lia)).
Defined.

(** X21: [computeSymmetricPart] is idempotent: applied to its own result it
    returns that result. *)
Theorem computeSymmetricPart_idempotent (A s0 s1 : list R) (d0 d1 dim : nat) :
  length A = (dim * dim)%nat ->
  exists s,
    computeSymmetricPart A s0 d0 = (None, (s, dim))
    /\ computeSymmetricPart s s1 d1 = (None, (s, dim)).
Proof.
  intros HA.
  destruct (computeSymmetricPart_entries A s0 d0 dim HA) as (s & Hs & Hl & Hk).
  exists s. split; [exact Hs|].
  destruct (computeSymmetricPart_entries s s1 d1 dim Hl) as (t & Ht & Hlt & Hkt).
  rewrite Ht. do 2 f_equal.
  apply (list_eq_same_length _ _ (dim * dim)); [assumption|assumption|].
  intros k x y Hlt' Hx Hy.
  apply list_lookup_total_correct in Hx, Hy. subst x y.
  assert (Hdim : dim <> 0%nat) by (intros ->; lia).
  assert (Hd : (k / dim < dim)%nat) by (apply Nat.Div0.div_lt_upper_bound; lia).
  assert (Hm : (k mod dim < dim)%nat) by (apply Nat.mod_upper_bound; exact Hdim).
  rewrite (Nat.div_mod_eq k dim).
  rewrite (Hkt _ _ Hd Hm), (Hk _ _ Hd Hm), (Hk _ _ Hm Hd), half_eq. field.
Qed.

Lemma computeSymmetricPart_idempotent_example :
  exists s,
    computeSymmetricPart [1; 2; 3; 4] [] 0 = (None, (s, 2%nat))
    /\ computeSymmetricPart s [] 0 = (None, (s, 2%nat)).
Proof.
  exact (computeSymmetricPart_idempotent [1; 2; 3; 4] [] [] 0 0 2 eq_refl).
Defined.

(** ** evolveF: limits and failures *)

Lemma evolveF_explicit_value (Dt : R) (Fp Lp L : list R) :
  length Fp = 9%nat -> length Lp = 9%nat -> length L = 9%nat ->
  Eigen.product (Eigen.inverse (evolveF_LHS Dt 1 L))
    (vectorTools.scale Dt (Eigen.product (evolveF_Lstar 1 Lp L) Fp))
  = vectorTools.scale Dt (Eigen.product Lp Fp)
  /\ Eigen.product (vectorTools.scale Dt (Eigen.product Fp (evolveF_Lstar 1 Lp L)))
       (Eigen.inverse (evolveF_LHS Dt 1 L))
     = vectorTools.scale Dt (Eigen.product Fp Lp).
Proof.
  intros HFp HLp HL. explode Fp HFp. explode Lp HLp. explode L HL.
  run_all. split; by_entries; field;
    match goal with |- ?P <> 0 => replace P with 1 by ring; lra end.
Qed.

(** X22: with [alpha = 1] the step of [evolveF] is explicit: no matrix has
    to be invertible, the current velocity gradient [L] plays no part, and
    in mode 1 the increment is [Dt] times the rate [computeDFDt] gives for
    the previous state (in mode 2, [Dt Fp Lp]); the overload without the
    increment returns the same [F]. *)
Theorem evolveF_explicit (Dt : R) (Fp Lp L dF0 F0 D0 : list R) :
  length Fp = 9%nat -> length Lp = 9%nat -> length L = 9%nat ->
  let D := (computeDFDt Lp Fp D0).2 in
  evolveF Dt Fp Lp L dF0 F0 1 1
  = (None, (vectorTools.scale Dt D, vectorTools.add Fp (vectorTools.scale Dt D)))
  /\ evolveF Dt Fp Lp L dF0 F0 1 2
     = (None, (vectorTools.scale Dt (Eigen.product Fp Lp),
               vectorTools.add Fp (vectorTools.scale Dt (Eigen.product Fp Lp))))
  /\ evolveF_value_only Dt Fp Lp L F0 1 1
     = (None, vectorTools.add Fp (vectorTools.scale Dt D)).
Proof.
  intros HFp HLp HL D. unfold D, evolveF_value_only.
  rewrite (computeDFDt_value Lp Fp D0 HLp HFp). cbn [snd].
  rewrite !(evolveF_value Dt 1 Fp Lp L _ _ _ HFp HLp HL) by (auto).
  cbv zeta. cbn [Nat.eqb].
  destruct (evolveF_explicit_value Dt Fp Lp L HFp HLp HL) as [-> ->].
  repeat split.
Qed.

Lemma evolveF_explicit_example :
  evolveF 2 eye3 [0; 1; 0; 0; 0; 0; 0; 0; 0] [5; 5; 5; 5; 5; 5; 5; 5; 5] [] [] 1 1
  = (None,
     (vectorTools.scale 2 (computeDFDt [0; 1; 0; 0; 0; 0; 0; 0; 0] eye3 []).2,
      vectorTools.add eye3
        (vectorTools.scale 2 (computeDFDt [0; 1; 0; 0; 0; 0; 0; 0; 0] eye3 []).2))).
Proof.
  exact (proj1 (evolveF_explicit 2 eye3 [0; 1; 0; 0; 0; 0; 0; 0; 0]
                  [5; 5; 5; 5; 5; 5; 5; 5; 5] [] [] [] eq_refl eq_refl eq_refl)).
Defined.

Lemma evolveF_zero_step_value (alpha : R) (Fp Lp L : list R) :
  length Fp = 9%nat -> length Lp = 9%nat -> length L = 9%nat ->
  Eigen.product (Eigen.inverse (evolveF_LHS 0 alpha L))
    (vectorTools.scale 0 (Eigen.product (evolveF_Lstar alpha Lp L) Fp))
  = replicate 9 0
  /\ Eigen.product (vectorTools.scale 0 (Eigen.product Fp (evolveF_Lstar alpha Lp L)))
       (Eigen.inverse (evolveF_LHS 0 alpha L))
     = replicate 9 0.
Proof.
  intros HFp HLp HL. explode Fp HFp. explode Lp HLp. explode L HL.
  run_all. split; by_entries; field;
    match goal with |- ?P <> 0 => replace P with 1 by ring; lra end.
Qed.

Lemma add_zero_r (Fp : list R) :
  length Fp = 9%nat -> vectorTools.add Fp (replicate 9 0) = Fp.
Proof. intros HFp. explode Fp HFp. run_all. by_entries; ring. Qed.

(** X23: a step of zero length returns the previous deformation gradient
    and a zero increment, for every [alpha] and both modes. *)
Theorem evolveF_zero_step
    (alpha : R) (Fp Lp L dF0 F0 : list R) (mode : nat) :
  length Fp = 9%nat -> length Lp = 9%nat -> length L = 9%nat ->
  mode = 1%nat \/ mode = 2%nat ->
  evolveF 0 Fp Lp L dF0 F0 alpha mode = (None, (replicate 9 0, Fp)).
Proof.
  intros HFp HLp HL Hmode.
  rewrite (evolveF_value 0 alpha Fp Lp L dF0 F0 mode HFp HLp HL Hmode).
  cbv zeta.
  destruct (evolveF_zero_step_value alpha Fp Lp L HFp HLp HL) as [H1 H2].
  destruct Hmode as [-> | ->]; cbn [Nat.eqb]; rewrite ?H1, ?H2;
    rewrite (add_zero_r Fp HFp); reflexivity.
Qed.

Lemma evolveF_zero_step_example :
  evolveF 0 eye3 eye3 eye3 [] [] (1 / 2) 2 = (None, (replicate 9 0, eye3)).
Proof.
  apply evolveF_zero_step; try reflexivity. right. reflexivity.
Defined.

(** X24: [evolveF] fails with a ShapeError when an input is not of nine
    values and with a ParameterError when the mode is neither 1 nor 2, in
    both cases leaving its outputs untouched; for well-shaped inputs and a
    valid mode it never reports an error, a singular system included. *)
Theorem evolveF_failures
    (Dt alpha : R) (Fp Lp L dF0 F0 : list R) (mode : nat) :
  ((length Fp <> 9%nat \/ length Lp <> 9%nat \/ length L <> 9%nat) ->
   exists e, evolveF Dt Fp Lp L dF0 F0 alpha mode = (Some e, (dF0, F0))
             /\ kind e = ShapeError)
  /\ (length Fp = 9%nat -> length Lp = 9%nat -> length L = 9%nat ->
      (mode <> 1%nat -> mode <> 2%nat ->
       exists e, evolveF Dt Fp Lp L dF0 F0 alpha mode = (Some e, (dF0, F0))
                 /\ kind e = ParameterError)
      /\ (mode = 1%nat \/ mode = 2%nat ->
          (evolveF Dt Fp Lp L dF0 F0 alpha mode).1 = None)).
Proof.
  split.
  - intros H. unfold evolveF. cbv zeta. change (3 * 3)%nat with 9%nat.
    destruct (Nat.eqb_spec (length Fp) 9) as [E1|N1]; cbn [negb];
      [|eexists; split; reflexivity].
    destruct (Nat.eqb_spec (length Lp) (length Fp)) as [E2|N2]; cbn [negb];
      [|eexists; split; reflexivity].
    destruct (Nat.eqb_spec (length Fp) (length L)) as [E3|N3]; cbn [negb];
      [|eexists; split; reflexivity].
    exfalso. destruct H as [H|[H|H]]; congruence.
  - intros HFp HLp HL. split.
    + intros N1 N2. unfold evolveF. cbv zeta. change (3 * 3)%nat with 9%nat.
      rewrite HFp, HLp, HL. cbn [Nat.eqb negb].
      destruct (Nat.eqb_spec mode 1) as [|_]; [contradiction|].
      destruct (Nat.eqb_spec mode 2) as [|_]; [contradiction|].
      cbn [orb negb]. eexists. split; reflexivity.
    + intros Hmode.
      rewrite (evolveF_value Dt alpha Fp Lp L dF0 F0 mode HFp HLp HL Hmode).
      reflexivity.
Qed.

Lemma evolveF_failures_example :
  exists e, evolveF 1 eye3 eye3 eye3 [] [] 0 3 = (Some e, ([], []))
            /\ kind e = ParameterError.
Proof.
  destruct (evolveF_failures 1 0 eye3 eye3 eye3 [] [] 3) as [_ H].
  destruct (H eq_refl eq_refl eq_refl) as [H1 _].
  apply H1; discriminate.
Defined.

(** ** midpointEvolution: the scalar overload and the Jacobian *)

Lemma scale_ones_lookup (alpha : R) (n i : nat) :
  (i < n)%nat -> vectorTools.scale alpha (replicate n 1) !!! i = alpha.
Proof.
  revert i. induction n as [|n IH]; intros i Hi; [lia|].
  destruct i as [|i]; [cbn; ring|]. apply IH. lia.
Qed.

Lemma scale_ones_length (alpha : R) (n : nat) :
  length (vectorTools.scale alpha (replicate n 1)) = n.
Proof. unfold vectorTools.scale. rewrite length_map, length_replicate. reflexivity. Qed.

Lemma scale_ones_Forall (alpha : R) (n : nat) (P : R -> Prop) :
  P alpha -> Forall P (vectorTools.scale alpha (replicate n 1)).
Proof.
  intros HP. induction n as [|n IH]; [constructor|].
  cbn. constructor; [|exact IH]. replace (alpha * 1) with alpha by ring. exact HP.
Qed.

(** X25: the scalar overload of [midpointEvolution] applies one [alpha] to
    every component; an [alpha] outside [[0, 1]] is a ParameterError for a
    non-empty vector, while for empty vectors every [alpha] succeeds. *)
Theorem midpointEvolution_scalar_alpha
    (Dt alpha : R) (Ap DApDt DADt dA0 A0 : list R) :
  length DApDt = length Ap -> length DADt = length Ap ->
  (alpha_in_range alpha ->
   exists dA A,
     midpointEvolution_scalar Dt Ap DApDt DADt dA0 A0 alpha = (None, (dA, A))
     /\ length A = length Ap
     /\ forall i, (i < length Ap)%nat ->
          A !!! i = Ap !!! i + Dt * (alpha * DApDt !!! i + (1 - alpha) * DADt !!! i))
  /\ (~ alpha_in_range alpha -> Ap <> [] ->
      exists e dA A,
        midpointEvolution_scalar Dt Ap DApDt DADt dA0 A0 alpha = (Some e, (dA, A))
        /\ kind e = ParameterError)
  /\ (Ap = [] ->
      midpointEvolution_scalar Dt Ap DApDt DADt dA0 A0 alpha = (None, ([], []))).
Proof.
  intros H1 H2. unfold midpointEvolution_scalar. split; [|split].
  - intros Ha.
    destruct (midpointEvolution_ok Dt Ap DApDt DADt dA0 A0
                (vectorTools.scale alpha (replicate (length Ap) 1)) H1 H2
                (scale_ones_length _ _) (scale_ones_Forall _ _ _ Ha))
      as (dA & A & Heq & _ & Hl & Hi).
    exists dA, A. split; [exact Heq|]. split; [exact Hl|].
    intros i Hlt. destruct (Hi i Hlt) as [Hd HA]. rewrite HA, Hd.
    unfold midpoint_dA. rewrite (scale_ones_lookup alpha _ i Hlt). reflexivity.
  - intros Ha Hne. destruct Ap as [|a Ap]; [contradiction|].
    cbn [length replicate vectorTools.scale map].
    destruct (midpointEvolution_partial Dt (a :: Ap) DApDt DADt dA0 A0 []
                (map (Rmult alpha) (replicate (length Ap) 1)) (alpha * 1))
      as (dA & A & Heq & _); try assumption.
    + cbn [app length]. rewrite length_map, length_replicate. reflexivity.
    + constructor.
    + replace (alpha * 1) with alpha by ring. exact Ha.
    + exists (mkErrorNode ParameterError "midpointEvolution"
                "Alpha must be between 0 and 1"), dA, A.
      split; [exact Heq | reflexivity].
  - intros ->. destruct DApDt; [|discriminate]. destruct DADt; [|discriminate].
    reflexivity.
Qed.

Lemma midpointEvolution_scalar_alpha_example :
  exists dA A,
    midpointEvolution_scalar 2 [1; 1] [1; 2] [3; 4] [] [] (1 / 2) = (None, (dA, A))
    /\ length A = 2%nat.
Proof.
  destruct (midpointEvolution_scalar_alpha 2 (1 / 2) [1; 1] [1; 2] [3; 4] [] []
              eq_refl eq_refl) as [H _].
  destruct H as (dA & A & H1 & H2 & _).
  - unfold alpha_in_range. lra.
  - exists dA, A. split; assumption.
Defined.

Lemma uint_small (z : Z) : (0 <= z < 4294967296)%Z -> uint z = z.
Proof. intros H. unfold uint. apply Z.mod_small. exact H. Qed.

(** Below 65536 components no index of the Jacobian wraps. *)
Lemma flat_index_uint (n i : nat) :
  (Z.of_nat n < 65536)%Z -> (i < n)%nat ->
  uint (uint (Z.of_nat n * Z.of_nat i) + Z.of_nat i) = Z.of_nat (n * i + i).
Proof.
  intros Hn Hi. rewrite (uint_small (Z.of_nat n * Z.of_nat i)) by nia.
  rewrite uint_small by nia. lia.
Qed.

(** The Jacobian loop writes the diagonal. *)
Lemma midpointEvolutionFlatJ_loop_entries (Dt : R) (n : nat) (al : list R) :
  (Z.of_nat n < 65536)%Z ->
  forall (i0 : nat) (v : list R),
    length v = (n * n)%nat -> (i0 + length al <= n)%nat ->
    exists r,
      midpointEvolutionFlatJ_loop Dt (Z.of_nat n) al (Z.of_nat i0) v = Some r
      /\ length r = (n * n)%nat
      /\ forall i j, (i < n)%nat -> (j < n)%nat ->
           r !!! (n * i + j)%nat
           = if decide (i = j /\ i0 <= i < i0 + length al)%nat
             then Dt * (1 - al !!! (i - i0)%nat) else v !!! (n * i + j)%nat.
Proof.
  intros Hn. induction al as [|a al IH]; intros i0 v Hv Hi0.
  - exists v. split; [reflexivity|]. split; [exact Hv|].
    intros i j Hi Hj. cbn [length]. rewrite decide_False by lia. reflexivity.
  - cbn [length] in Hi0. cbn [midpointEvolutionFlatJ_loop]. cbv zeta.
    rewrite (flat_index_uint n i0 Hn) by lia.
    assert (Hin : (n * i0 + i0 < n * n)%nat) by nia.
    destruct (Z.ltb_spec (Z.of_nat (n * i0 + i0)) (Z.of_nat (length v)))
      as [_|Hge]; [|lia].
    rewrite Nat2Z.id.
    replace (uint (Z.of_nat i0 + 1)) with (Z.of_nat (S i0))
      by (rewrite uint_small; lia).
    destruct (IH (S i0) (<[(n * i0 + i0)%nat := Dt * (1 - a)]> v))
      as (r & Hr & Hl & Hk).
    { rewrite length_insert. exact Hv. }
    { lia. }
    exists r. split; [exact Hr|]. split; [exact Hl|].
    intros i j Hi Hj. rewrite (Hk i j Hi Hj). cbn [length].
    destruct (decide (i = j /\ S i0 <= i < S i0 + length al)%nat) as [[-> Hr']|Hn'].
    + rewrite decide_True by lia.
      replace (j - i0)%nat with (S (j - S i0)) by lia. reflexivity.
    + destruct (decide (i = j /\ i0 <= i < i0 + S (length al))%nat)
        as [[-> Hr']|Hn''].
      * assert (j = i0) by lia. subst j. rewrite Nat.sub_diag.
        rewrite list_lookup_total_insert_eq by lia. reflexivity.
      * rewrite list_lookup_total_insert_ne; [reflexivity|].
        intros He. rewrite !(Nat.mul_comm n) in He.
        assert (Hi0n : (i0 < n)%nat) by lia.
        destruct (proj1 (flat_index_unique n i j i0 i0 Hj Hi0n) He) as [-> ->].
        apply Hn''. lia.
Qed.

(** At 65536 components the size of the buffer, [A_size * A_size], wraps
    to zero and the first write is out of bounds. *)
Lemma midpointEvolutionFlatJ_wraps
    (Dt : R) (Ap DApDt DADt alpha dA0 A0 J0 : list R) :
  length DApDt = length Ap -> length DADt = length Ap ->
  length alpha = length Ap -> Forall alpha_in_range alpha ->
  Z.of_nat (length Ap) = 65536%Z ->
  midpointEvolutionFlatJ Dt Ap DApDt DADt dA0 A0 J0 alpha = None.
Proof.
  intros H1 H2 H3 Hall Hn. unfold midpointEvolutionFlatJ.
  destruct (midpointEvolution_ok Dt Ap DApDt DADt dA0 A0 alpha H1 H2 H3 Hall)
    as (dA & A & Heq & _ & Hl & _).
  rewrite Heq. cbv zeta. rewrite Hl, Hn.
  replace (uint (uint 65536 * uint 65536)) with 0%Z by reflexivity.
  destruct alpha as [|a alpha]; [cbn [length] in H3; lia|].
  reflexivity.
Qed.

Lemma add_lookup (u v : list R) (i : nat) :
  length u = length v ->
  vectorTools.add u v !!! i = u !!! i + v !!! i.
Proof.
  revert v i. induction u as [|x u IH]; intros [|y v] i Hl; try discriminate.
  - destruct i; cbn; ring.
  - destruct i as [|i]; [reflexivity|].
    cbn in Hl. injection Hl as Hl. exact (IH v i Hl).
Qed.

(** X26: for fewer than 65536 components (so that the [unsigned int]
    product [A_size * A_size] does not wrap) the Jacobian of
    [midpointEvolutionFlatJ] is the diagonal matrix with entries
    [Dt (1 - alpha_i)], and it is exact: perturbing the current rate by [h]
    changes [A] by the Jacobian applied to [h]. *)
Theorem midpointEvolutionFlatJ_exact
    (Dt : R) (Ap DApDt DADt alpha h dA0 A0 J0 : list R) :
  length DApDt = length Ap -> length DADt = length Ap ->
  length alpha = length Ap -> length h = length Ap ->
  Forall alpha_in_range alpha ->
  (Z.of_nat (length Ap) < 65536)%Z ->
  let n := length Ap in
  exists dA A J,
    midpointEvolutionFlatJ Dt Ap DApDt DADt dA0 A0 J0 alpha
    = Some (None, (dA, A, J))
    /\ length J = (n * n)%nat
    /\ (forall i j, (i < n)%nat -> (j < n)%nat ->
          J !!! (n * i + j)%nat
          = if decide (i = j) then Dt * (1 - alpha !!! i) else 0)
    /\ (forall i, (i < n)%nat ->
          (midpointEvolution Dt Ap DApDt (vectorTools.add DADt h) dA0 A0 alpha).2.2
          !!! i
          = A !!! i + sumR n (fun j => J !!! (n * i + j)%nat * h !!! j)).
Proof.
  intros H1 H2 H3 H4 Hall Hn n. unfold midpointEvolutionFlatJ.
  destruct (midpointEvolution_ok Dt Ap DApDt DADt dA0 A0 alpha H1 H2 H3 Hall)
    as (dA & A & Heq & _ & Hl & Hi).
  rewrite Heq. cbv zeta. rewrite Hl. fold n.
  rewrite (uint_small (Z.of_nat n)) by (unfold n; lia).
  rewrite (uint_small (Z.of_nat n * Z.of_nat n)) by (unfold n in *; nia).
  rewrite <- Nat2Z.inj_mul, Nat2Z.id.
  destruct (midpointEvolutionFlatJ_loop_entries Dt n alpha Hn 0
              (replicate (n * n) 0)) as (J & HJeq & HJl & HJ).
  { apply length_replicate. }
  { unfold n. lia. }
  change (Z.of_nat 0) with 0%Z in HJeq. rewrite HJeq.
  exists dA, A, J. split; [reflexivity|]. split; [exact HJl|].
  assert (HJ' : forall i j, (i < n)%nat -> (j < n)%nat ->
            J !!! (n * i + j)%nat
            = if decide (i = j) then Dt * (1 - alpha !!! i) else 0).
  { intros i j Hlti Hltj. rewrite (HJ i j Hlti Hltj).
    destruct (decide (i = j)) as [->|Hne].
    - rewrite decide_True by (unfold n in *; lia). rewrite Nat.sub_0_r. reflexivity.
    - rewrite decide_False by tauto. apply lookup_total_replicate_2. nia. }
  split; [exact HJ'|]. intros i Hlt.
  assert (H2' : length (vectorTools.add DADt h) = length Ap).
  { unfold vectorTools.add. rewrite length_zip_with. lia. }
  destruct (midpointEvolution_ok Dt Ap DApDt (vectorTools.add DADt h) dA0 A0
              alpha H1 H2' H3 Hall) as (dA' & A' & Heq' & _ & _ & Hi').
  rewrite Heq'. cbn [snd].
  destruct (Hi i Hlt) as [Hd HA]. destruct (Hi' i Hlt) as [Hd' HA'].
  rewrite HA', Hd', HA, Hd. unfold midpoint_dA.
  rewrite add_lookup by lia.
  rewrite (sumR_ext n _ (fun j => if decide (j = i)
                                   then Dt * (1 - alpha !!! i) * h !!! i else 0)).
  - rewrite sumR_single by exact Hlt. ring.
  - intros j Hj. rewrite (HJ' i j Hlt Hj).
    destruct (decide (i = j)) as [->|Hne].
    + rewrite decide_True by reflexivity. reflexivity.
    + rewrite decide_False by congruence. ring.
Qed.

Lemma midpointEvolutionFlatJ_exact_example :
  exists dA A J,
    midpointEvolutionFlatJ 2 [1; 1] [1; 2] [3; 4] [] [] [] [0; 1 / 4]
    = Some (None, (dA, A, J))
    /\ length J = 4%nat
    /\ J !!! 3%nat = 2 * (1 - 1 / 4)
    /\ J !!! 1%nat = 0.
Proof.
  destruct (midpointEvolutionFlatJ_exact 2 [1; 1] [1; 2] [3; 4] [0; 1 / 4] [5; 6]
              [] [] [] eq_refl eq_refl eq_refl eq_refl)
    as (dA & A & J & H1 & H2 & H3 & _).
  - repeat constructor; lra.
  - reflexivity.
  - exists dA, A, J. split; [exact H1|]. split; [exact H2|]. split.
    + exact (H3 1%nat 1%nat (Nat.lt_succ_diag_r 1) (Nat.lt_succ_diag_r 1)).
    + exact (H3 0%nat 1%nat (Nat.lt_0_succ 1) (Nat.lt_succ_diag_r 1)).
Defined.

(** ** computeUnitNormal and WLF *)

Lemma fold_left_Rplus_acc (l : list R) (a : R) :
  fold_left Rplus l a = a + fold_left Rplus l 0.
Proof.
  revert a. induction l as [|x l IH]; intros a; cbn [fold_left].
  - ring.
  - rewrite (IH (a + x)), (IH (0 + x)). ring.
Qed.

Lemma inner_cons (x y : R) (u v : list R) :
  inner (x :: u) (y :: v) = x * y + inner u v.
Proof.
  unfold inner. cbn [zip_with fold_left]. rewrite fold_left_Rplus_acc. ring.
Qed.

Lemma inner_nonneg (u : list R) : 0 <= inner u u.
Proof.
  induction u as [|x u IH]; [unfold inner; cbn; lra|].
  rewrite inner_cons. nra.
Qed.

Lemma inner_divide (u : list R) (c : R) :
  inner (vectorTools.divide u c) (vectorTools.divide u c)
  = inner u u * (/ c * / c).
Proof.
  induction u as [|x u IH]; [unfold inner; cbn; ring|].
  unfold vectorTools.divide in *. cbn [map]. rewrite !inner_cons, IH.
  unfold Rdiv. ring.
Qed.

Lemma inner_zeros (n : nat) : inner (replicate n 0) (replicate n 0) = 0.
Proof.
  induction n as [|n IH]; [unfold inner; cbn; ring|].
  cbn [replicate]. rewrite inner_cons, IH. ring.
Qed.

(** X27: [computeUnitNormal] always succeeds; when the norm compares equal
    to zero it returns the zero vector instead of dividing, and otherwise it
    returns [A / |A|], of unit norm (for a comparison that finds zero equal
    to zero). *)
Theorem computeUnitNormal_unit
    (fuzzyEquals : R -> R -> bool) (A A0 : list R) :
  fuzzyEquals 0 0 = true ->
  exists n,
    computeUnitNormal fuzzyEquals A A0 = (None, n)
    /\ length n = length A
    /\ (fuzzyEquals (sqrt (inner A A)) 0 = true -> n = replicate (length A) 0)
    /\ (fuzzyEquals (sqrt (inner A A)) 0 = false ->
        n = vectorTools.divide A (sqrt (inner A A)) /\ inner n n = 1)
    /\ (inner n n = 0 \/ inner n n = 1).
Proof.
  intros H00. unfold computeUnitNormal. cbv zeta.
  destruct (fuzzyEquals (sqrt (inner A A)) 0) eqn:Hfz.
  - eexists. split; [reflexivity|]. split; [apply length_replicate|].
    split; [reflexivity|]. split; [discriminate|]. left. apply inner_zeros.
  - assert (Hn : sqrt (inner A A) <> 0).
    { intros Hz. rewrite Hz in Hfz. congruence. }
    assert (Hunit : inner (vectorTools.divide A (sqrt (inner A A)))
                      (vectorTools.divide A (sqrt (inner A A))) = 1).
    { rewrite inner_divide.
      rewrite <- (sqrt_sqrt (inner A A)) at 1 by apply inner_nonneg.
      field. exact Hn. }
    eexists. split; [reflexivity|].
    split; [unfold vectorTools.divide; apply length_map|].
    split; [discriminate|]. split; [split; [reflexivity|exact Hunit]|].
    right. exact Hunit.
Qed.

Lemma fuzzyEquals_tol_zero (tolr tola : R) :
  0 < tola -> fuzzyEquals_tol tolr tola 0 0 = true.
Proof.
  intros Ht. unfold fuzzyEquals_tol. apply bool_decide_eq_true.
  replace (0 - 0) with 0 by ring. rewrite Rabs_R0.
  rewrite Rmult_0_r, Rplus_0_l. unfold Rmin. destruct (Rle_dec tola tola); lra.
Qed.

Lemma fuzzyEquals_tol_far (tolr tola x : R) :
  0 <= tolr -> tola < Rabs x -> fuzzyEquals_tol tolr tola x 0 = false.
Proof.
  intros Hr Hx. unfold fuzzyEquals_tol. apply bool_decide_eq_false.
  replace (x - 0) with x by ring. rewrite Rabs_R0, Rmult_0_r, Rplus_0_l.
  pose proof (Rmin_r (tolr * Rabs x + tola) tola). lra.
Qed.

Lemma computeUnitNormal_unit_example :
  exists n,
    computeUnitNormal (fuzzyEquals_tol (1 / 1000000) (1 / 1000000))
      (replicate 3 0) [] = (None, n)
    /\ (inner n n = 0 \/ inner n n = 1).
Proof.
  destruct (computeUnitNormal_unit (fuzzyEquals_tol (1 / 1000000) (1 / 1000000))
              (replicate 3 0) [])
    as (n & Hn & _ & _ & _ & H).
  - apply fuzzyEquals_tol_zero. lra.
  - exists n. split; assumption.
Defined.

(** X28: [WLF] fails with a ShapeError unless it gets three parameters and
    with a DomainError when the denominator compares equal to zero;
    otherwise the shift factor is [10^(-C1 (T - Tr) / (C2 + T - Tr))],
    which is positive and equal to 1 at the reference temperature. *)
Theorem WLF_shift_factor
    (fuzzyEquals : R -> R -> bool) (T f0 : R) (params : list R) :
  (length params <> 3%nat ->
   exists e, WLF fuzzyEquals T params f0 = (Some e, f0) /\ kind e = ShapeError)
  /\ (forall Tr C1 C2, params = [Tr; C1; C2] ->
      (fuzzyEquals (C2 + (T - Tr)) 0 = true ->
       exists e, WLF fuzzyEquals T params f0 = (Some e, f0)
                 /\ kind e = DomainError)
      /\ (fuzzyEquals (C2 + (T - Tr)) 0 = false ->
          exists f,
            WLF fuzzyEquals T params f0 = (None, f)
            /\ f = Rpower 10 (- C1 * (T - Tr) / (C2 + (T - Tr)))
            /\ 0 < f
            /\ (T = Tr -> f = 1))).
Proof.
  split.
  - intros H. unfold WLF.
    destruct (Nat.eqb_spec (length params) 3) as [|_]; [contradiction|].
    eexists. split; reflexivity.
  - intros Tr C1 C2 ->. unfold WLF. cbn [length Nat.eqb negb].
    cbv zeta. cbn [lookup_total list_lookup_total]. split.
    + intros ->. eexists. split; reflexivity.
    + intros ->. cbn [negb]. eexists. split; [reflexivity|].
      split; [reflexivity|]. split.
      * unfold Rpower. apply exp_pos.
      * intros ->. replace (- C1 * (Tr - Tr) / (C2 + (Tr - Tr))) with 0.
        -- apply Rpower_O. lra.
        -- unfold Rdiv. ring.
Qed.

Lemma WLF_shift_factor_example :
  exists f,
    WLF (fuzzyEquals_tol (1 / 1000000) (1 / 1000000)) 5 [5; 2; 1] 0 = (None, f)
    /\ f = 1.
Proof.
  destruct (WLF_shift_factor (fuzzyEquals_tol (1 / 1000000) (1 / 1000000))
              5 0 [5; 2; 1]) as [_ H].
  destruct (H 5 2 1 eq_refl) as [_ H2].
  destruct H2 as (f & Hf & _ & _ & H1).
  - apply fuzzyEquals_tol_far; [lra|].
    replace (1 + (5 - 5)) with 1 by ring. rewrite Rabs_R1. lra.
  - exists f. split; [exact Hf | exact (H1 eq_refl)].
Defined.

(** ** rotateMatrix: rotating there and back *)

Lemma rotateMatrix_3x3_value (A Q : list R) :
  length A = 9%nat -> length Q = 9%nat ->
  rotateMatrix A Q []
  = Some (None, Eigen.product (Eigen.product (Eigen_transpose Q) A) Q).
Proof.
  intros HA HQ. unfold rotateMatrix. rewrite HA, HQ. cbn [Nat.eqb negb].
  cbv zeta. replace (Nat.sqrt 9) with 3%nat by reflexivity.
  replace (9 mod 3)%nat with 0%nat by reflexivity. cbn [Nat.eqb negb].
  explode A HA. explode Q HQ.
  unfold rotateMatrix_loops, rotateMatrix_term. run_all.
  do 2 f_equal. by_entries; ring.
Qed.

(** [Q (Q^T A Q) Q^T = (Q Q^T) A (Q Q^T)] *)
Lemma rotate_back_reassoc (A Q : list R) :
  length A = 9%nat -> length Q = 9%nat ->
  Eigen.product
    (Eigen.product (Eigen_transpose (Eigen_transpose Q))
       (Eigen.product (Eigen.product (Eigen_transpose Q) A) Q))
    (Eigen_transpose Q)
  = Eigen.product
      (Eigen.product (Eigen.product Q (Eigen_transpose Q)) A)
      (Eigen.product Q (Eigen_transpose Q)).
Proof.
  intros HA HQ. explode A HA. explode Q HQ. run_all. by_entries; ring.
Qed.

Lemma Eigen_product_eye_r (M : list R) :
  length M = 9%nat -> Eigen.product M eye3 = M.
Proof. intros HM. explode M HM. run_all. by_entries; ring. Qed.

(** X29: for nine values and an orthogonal [Q], rotating [A] with [Q] and
    the result with [Q^T], each into an empty output, returns [A]. *)
Theorem rotateMatrix_there_and_back (A Q : list R) :
  length A = 9%nat -> length Q = 9%nat ->
  Eigen.product Q (Eigen_transpose Q) = eye3 ->
  exists A',
    rotateMatrix A Q [] = Some (None, A')
    /\ rotateMatrix A' (Eigen_transpose Q) [] = Some (None, A).
Proof.
  intros HA HQ Horth. eexists.
  split; [apply rotateMatrix_3x3_value; assumption|].
  rewrite rotateMatrix_3x3_value by reflexivity.
  rewrite (rotate_back_reassoc A Q HA HQ), Horth.
  rewrite (Eigen_product_eye_l A HA), (Eigen_product_eye_r A HA). reflexivity.
Qed.

Lemma rotateMatrix_there_and_back_example :
  exists A',
    rotateMatrix [1; 2; 3; 4; 5; 6; 7; 8; 9] [0; -1; 0; 1; 0; 0; 0; 0; 1] []
    = Some (None, A')
    /\ rotateMatrix A' (Eigen_transpose [0; -1; 0; 1; 0; 0; 0; 0; 1]) []
       = Some (None, [1; 2; 3; 4; 5; 6; 7; 8; 9]).
Proof.
  apply rotateMatrix_there_and_back; [reflexivity|reflexivity|].
  run_all. by_entries; lra.
Defined.

(** ** The Almansi strain of a deformation gradient *)

(** X30: pushing the Green-Lagrange strain of an invertible [F] forward
    with [F] gives the Almansi strain [1/2 (I - F^-T F^-1)]. *)
Theorem Almansi_of_GreenLagrange (F E0 e0 : list R) :
  length F = 9%nat -> Eigen.determinant F <> 0 ->
  exists E,
    computeGreenLagrangeStrain F E0 = (None, E)
    /\ pushForwardGreenLagrangeStrain E F e0
       = (None,
          vectorTools.scale (1 / 2)
            (vsub eye3
               (Eigen.product (Eigen_transpose (Eigen.inverse F))
                  (Eigen.inverse F)))).
Proof.
  intros HF Hdet. eexists.
  split; [apply computeGreenLagrangeStrain_value; assumption|].
  unfold pushForwardGreenLagrangeStrain. cbv zeta.
  rewrite (vectorTools_inverse_3 F HF).
  explode F HF. revert Hdet. run_all. intros Hd.
  f_equal. by_entries; field; exact Hd.
Qed.

Lemma Almansi_of_GreenLagrange_example :
  exists E,
    computeGreenLagrangeStrain [2; 1; 0; 0; 1; 0; 0; 0; 1] [] = (None, E)
    /\ pushForwardGreenLagrangeStrain E [2; 1; 0; 0; 1; 0; 0; 0; 1] []
       = (None,
          vectorTools.scale (1 / 2)
            (vsub eye3
               (Eigen.product
                  (Eigen_transpose (Eigen.inverse [2; 1; 0; 0; 1; 0; 0; 0; 1]))
                  (Eigen.inverse [2; 1; 0; 0; 1; 0; 0; 0; 1])))).
Proof.
  apply Almansi_of_GreenLagrange; [reflexivity|].
  run_all. lra.
Defined.
